(** * linux-wasm-port: the wasm-vm host bridge, its orchestrator and the
      device-tree blob, as a shallow embedding.

    - [TypedArray]: the [Uint8Array] operations the host code relies on
      ([slice], indexed store, [set]), with the out-of-range behaviour of
      the platform written out.
    - [Worker]: [worker.ts] -- [instantiate], the import table handed to the
      kernel module, and [onmessage].
    - [Main]: [main.ts] -- [listen], the spawn relay and the boot sequence.
    - [DeviceTree]: the flattened device-tree encoder and a decoder for the
      same format. *)

From Stdlib Require Import ZArith List String Ascii Lia Bool.
From Stdlib.Strings Require Import Byte.
Import ListNotations.

Local Open Scope Z_scope.

Set Warnings "-register-all".

(** ** Host exceptions and the state-and-exception monad *)

Inductive exn : Type :=
| RangeError
| AssertionError (msg : string)
| EncodingError.

Inductive result (A : Type) : Type :=
| Ok (a : A)
| Throw (e : exn).
Arguments Ok {A} a.
Arguments Throw {A} e.

(** A computation over a mutable state [S]: the effects made before an
    exception is thrown stay in the state. *)
Definition M (S A : Type) : Type := S -> result A * S.

Definition ret {S A} (a : A) : M S A := fun s => (Ok a, s).

Definition bind {S A B} (m : M S A) (k : A -> M S B) : M S B :=
  fun s =>
    match m s with
    | (Ok a, s') => k a s'
    | (Throw e, s') => (Throw e, s')
    end.

Definition throw {S A} (e : exn) : M S A := fun s => (Throw e, s).
Definition get {S} : M S S := fun s => (Ok s, s).
Definition put {S} (s : S) : M S unit := fun _ => (Ok tt, s).
Definition modify {S} (f : S -> S) : M S unit := fun s => (Ok tt, f s).

Declare Scope js_scope.
Delimit Scope js_scope with js.
Notation "x <- m ;; k" := (bind m (fun x => k))
  (at level 61, m at next level, right associativity) : js_scope.
Notation "m ;;; k" := (bind m (fun _ => k))
  (at level 61, right associativity) : js_scope.

(** [l] with its [n]-th element replaced by [f] of it; nothing changes when
    there is no such element. *)
Fixpoint update_nth {A} (n : nat) (f : A -> A) (l : list A) : list A :=
  match l, n with
  | [], _ => []
  | x :: r, O => f x :: r
  | x :: r, S n' => x :: update_nth n' f r
  end.

(** ** Uint8Array *)

Module TypedArray.

Definition byteLength (a : list byte) : Z := Z.of_nat (List.length a).

(** A relative index of [slice]: negative counts from the end, and the
    result is clamped to the array. *)
Definition clamp_index (len i : Z) : Z :=
  if i <? 0 then Z.max (len + i) 0 else Z.min i len.

(** [a.slice(start, end)]. *)
Definition slice (a : list byte) (start end_ : Z) : list byte :=
  let len := byteLength a in
  let k := clamp_index len start in
  let final := clamp_index len end_ in
  firstn (Z.to_nat (final - k)) (skipn (Z.to_nat k) a).

(** [a[i] = v]: a store outside the array is dropped, the array is never
    extended. *)
Definition store (a : list byte) (i : Z) (v : byte) : list byte :=
  if (0 <=? i) && (i <? byteLength a)
  then firstn (Z.to_nat i) a ++ v :: skipn (S (Z.to_nat i)) a
  else a.

(** [target] with the bytes from [offset] on replaced by [source]. *)
Definition splice (target source : list byte) (offset : nat) : list byte :=
  firstn offset target ++ source
  ++ skipn (offset + List.length source) target.

(** [target.set(source, offset)]: the range is checked before the first
    byte is copied. *)
Definition set (target source : list byte) (offset : Z)
  : result (list byte) :=
  if (offset <? 0) || (byteLength target <? byteLength source + offset)
  then Throw RangeError
  else Ok (splice target source (Z.to_nat offset)).

End TypedArray.

(** ** Strings as the code uses them *)

Definition newline : ascii := "010"%char.

(** [s.split("\n")] *)
Fixpoint split_lines (s : string) : list string :=
  match s with
  | EmptyString => [EmptyString]
  | String c r =>
      if Ascii.eqb c newline then EmptyString :: split_lines r
      else match split_lines r with
           | h :: t => String c h :: t
           | [] => [String c EmptyString]
           end
  end.

(** [lines.join("\n")] *)
Fixpoint join_lines (l : list string) : string :=
  match l with
  | [] => EmptyString
  | [x] => x
  | x :: r => (x ++ String newline (join_lines r))%string
  end.

(** [new TextEncoder().encode(s)]: a string is kept as its UTF-8 bytes, an
    absent argument encodes as the empty array. *)
Definition TextEncoder_encode (s : option string) : list byte :=
  match s with
  | Some s => list_byte_of_string s
  | None => []
  end.

(** ** Numbers: IEEE-754 binary64, as far as the clock needs it *)

Module Double.

(** A finite value is [m * 2^e]; the sign of a zero is not kept (nothing in
    the code observes it). *)
Inductive double : Type :=
| Fin (m e : Z)
| Inf (negative : bool)
| NaN.

Definition prec : Z := 53.
Definition emin : Z := -1074.
Definition emax : Z := 1024.

(** Exponent of the last place of the binary64 number nearest to [m * 2^e]. *)
Definition cexp (m e : Z) : Z :=
  Z.max (Z.log2 (Z.abs m) + 1 + e - prec) emin.

(** [m / 2^k] rounded to the nearest integer, ties to even. *)
Definition rne_div (m k : Z) : Z :=
  if k <=? 0 then m * 2 ^ (- k)
  else
    let q := m / 2 ^ k in
    let r := m mod 2 ^ k in
    let half := 2 ^ (k - 1) in
    if r <? half then q
    else if half <? r then q + 1
    else if Z.even q then q else q + 1.

(** Round-to-nearest-even of the exact value [m * 2^e], exponent unbounded
    above. *)
Definition round_mant (m e : Z) : Z * Z :=
  let c := cexp m e in
  if c <=? e then (m, e) else (rne_div m (c - e), c).

(** [2^emax <= |m| * 2^e]; a rounded mantissa is at most [2^prec], so a
    negative exponent never overflows. *)
Definition overflows (m e : Z) : bool :=
  (0 <=? e) && (2 ^ emax <=? Z.abs m * 2 ^ e).

(** The binary64 result of an operation whose exact value is [m * 2^e]. *)
Definition of_exact (m e : Z) : double :=
  let '(m', e') := round_mant m e in
  if overflows m' e' then Inf (m' <? 0) else Fin m' e'.

Definition add (x y : double) : double :=
  match x, y with
  | NaN, _ | _, NaN => NaN
  | Inf a, Inf b => if Bool.eqb a b then Inf a else NaN
  | Inf a, Fin _ _ => Inf a
  | Fin _ _, Inf b => Inf b
  | Fin m1 e1, Fin m2 e2 =>
      let e := Z.min e1 e2 in
      of_exact (m1 * 2 ^ (e1 - e) + m2 * 2 ^ (e2 - e)) e
  end.

Definition mul (x y : double) : double :=
  match x, y with
  | NaN, _ | _, NaN => NaN
  | Inf a, Inf b => Inf (xorb a b)
  | Inf a, Fin m _ => if m =? 0 then NaN else Inf (xorb a (m <? 0))
  | Fin m _, Inf b => if m =? 0 then NaN else Inf (xorb (m <? 0) b)
  | Fin m1 e1, Fin m2 e2 => of_exact (m1 * m2) (e1 + e2)
  end.

(** [Math.round]: the nearest integer, a half rounds up. *)
Definition Math_round (x : double) : double :=
  match x with
  | Fin m e => if 0 <=? e then Fin m e
               else Fin ((2 * m + 2 ^ (- e)) / 2 ^ (- e + 1)) 0
  | _ => x
  end.

(** [BigInt(x)]: only an integral number converts. *)
Definition BigInt (x : double) : result Z :=
  match x with
  | Fin m e =>
      if 0 <=? e then Ok (m * 2 ^ e)
      else if m mod 2 ^ (- e) =? 0 then Ok (m / 2 ^ (- e))
      else Throw RangeError
  | _ => Throw RangeError
  end.

Definition of_Z (n : Z) : double := of_exact n 0.

(** The order of the finite values. *)
Definition le (x y : double) : Prop :=
  match x, y with
  | Fin m1 e1, Fin m2 e2 =>
      let e := Z.min e1 e2 in
      m1 * 2 ^ (e1 - e) <= m2 * 2 ^ (e2 - e)
  | _, _ => False
  end.

(** The value of [m * 2^e] counted in units of [2^E], for [E <= e]. *)
Definition grid (E m e : Z) : Z := m * 2 ^ (e - E).

(** The binary64 rounding of [X * 2^E], in units of [2^E]. *)
Definition round_on (E X : Z) : Z :=
  rne_div X (cexp X E - E) * 2 ^ (cexp X E - E).

(** A finite value of magnitude at most [2^j]. *)
Definition within (j : Z) (x : double) : Prop :=
  match x with
  | Fin m e => forall E, E <= e -> E <= j -> Z.abs (grid E m e) <= 2 ^ (j - E)
  | _ => False
  end.

End Double.

(** ** Messages between the orchestrator and its workers *)

(** Handles of the compiled module and of the shared memory object. *)
Definition module_ref : Type := nat.
Definition memory_ref : Type := nat.

(** What a worker posts to the orchestrator: [{ type: "task", task, name }]
    or [{ type: "secondary", cpu, idle }]. *)
Inductive spawn_request : Type :=
| ReqTask (task : Z) (name : string)
| ReqSecondary (cpu idle : Z).

(** What the orchestrator posts to a worker it has created. *)
Inductive start_message : Type :=
| StartBoot (vmlinux : module_ref) (memory : memory_ref)
            (devicetree : list byte)
| StartTask (vmlinux : module_ref) (memory : memory_ref) (task : Z)
| StartSecondary (vmlinux : module_ref) (memory : memory_ref) (cpu idle : Z).

(** ** worker.ts *)

Module Worker.

(** The [get_dt] closure an instantiation is given: the default of
    [instantiate], or the one [onmessage] builds around the blob of the boot
    message. *)
Inductive get_dt_fn : Type :=
| GetDtDefault
| GetDtBoot (devicetree : list byte).

(** The closure state of one call of [instantiate]. *)
Record instance : Type := mkInstance {
  inst_get_dt : get_dt_fn;
  irqflags : Z
}.

(** Everything the bridge functions of all instantiations act on: the one
    shared memory, the closure state of every instantiation, the console,
    and the messages posted to the orchestrator (with their sender). *)
Record host : Type := mkHost {
  memory : list byte;
  instances : list instance;
  console_log : list string;
  console_error : list string;
  posted : list (nat * spawn_request);
  closed : list nat
}.

Definition set_memory (m : list byte) (h : host) : host :=
  mkHost m (instances h) (console_log h) (console_error h) (posted h)
         (closed h).
Definition set_instances (l : list instance) (h : host) : host :=
  mkHost (memory h) l (console_log h) (console_error h) (posted h) (closed h).
Definition log (msg : string) (h : host) : host :=
  mkHost (memory h) (instances h) (console_log h ++ [msg]) (console_error h)
         (posted h) (closed h).
Definition log_error (msg : string) (h : host) : host :=
  mkHost (memory h) (instances h) (console_log h) (console_error h ++ [msg])
         (posted h) (closed h).
Definition postMessage (self : nat) (r : spawn_request) (h : host) : host :=
  mkHost (memory h) (instances h) (console_log h) (console_error h)
         (posted h ++ [(self, r)]) (closed h).
Definition close (self : nat) (h : host) : host :=
  mkHost (memory h) (instances h) (console_log h) (console_error h)
         (posted h) (closed h ++ [self]).

Definition irqflags_of (self : nat) (h : host) : Z :=
  match nth_error (instances h) self with
  | Some i => irqflags i
  | None => 0
  end.

(** Modelled from the spec: [assert] of util.ts is not among the sources; a
    failed assertion is an exception carrying the message, raised before
    anything that follows the call. *)
Definition assert (cond : bool) (msg : string) : M host unit :=
  if cond then ret tt else throw (AssertionError msg).

Definition lift {A} (r : result A) : M host A := fun h => (r, h).

Local Open Scope js_scope.

Section Bridge.

(** [TextDecoder.prototype.decode] of the platform. *)
Variable decode : list byte -> string.

(** The bridge functions of the instantiation [self]. *)

Definition breakpoint : M host unit := ret tt.

Definition halt (self : nat) : M host unit := modify (close self).

(** [globalThis?.location?.reload?.()]: a worker's location has no [reload],
    the optional call is skipped. *)
Definition restart : M host unit := ret tt.

Definition boot_console_write (msg len : Z) : M host unit :=
  h <- get ;;
  let message := TypedArray.slice (memory h) msg (msg + len) in
  let textMessage := decode message in
  modify (log textMessage).

Definition boot_console_close : M host unit := ret tt.

Definition return_address : M host Z := ret 0.

Definition set_irq_enabled (self : nat) (flags : Z) : M host unit :=
  modify (fun h =>
    set_instances
      (update_nth self (fun i => mkInstance (inst_get_dt i) flags)
                  (instances h)) h).

Definition get_irq_enabled (self : nat) : M host Z :=
  h <- get ;; ret (irqflags_of self h).

(** The default [get_dt] of [instantiate]. *)
Definition get_dt_default (_buf _size : Z) : M host unit :=
  modify (log_error "get_dt called on non-boot thread").

(** The [get_dt] that [onmessage] passes for a boot message. *)
Definition get_dt_boot (devicetree : list byte) (buf size : Z)
  : M host unit :=
  assert (size >=? TypedArray.byteLength devicetree)
         "Device tree truncated" ;;;
  h <- get ;;
  m <- lift (TypedArray.set (memory h)
                            (TypedArray.slice devicetree 0 size) buf) ;;
  modify (set_memory m).

Definition get_dt (self : nat) (buf size : Z) : M host unit :=
  h <- get ;;
  match nth_error (instances h) self with
  | Some i =>
      match inst_get_dt i with
      | GetDtDefault => get_dt_default buf size
      | GetDtBoot devicetree => get_dt_boot devicetree buf size
      end
  | None => ret tt
  end.

(** [performance.now()] and [performance.timeOrigin] are the two clock
    readings the call makes. *)
Definition get_now_nsec (now timeOrigin : Double.double) : M host Z :=
  n <- lift (Double.BigInt
               (Double.Math_round
                  (Double.mul (Double.add now timeOrigin)
                              (Double.of_Z 200)))) ;;
  ret (n * 5000).

Definition dot : byte := "."%byte.

(** [stack] is [new Error().stack]. *)
Definition stack_trace (stack : option string) : list byte :=
  TextEncoder_encode
    (option_map (fun s => join_lines (skipn 5 (split_lines s))) stack).

Definition mark_truncated (trace : list byte) (size : Z) : list byte :=
  if size >=? TypedArray.byteLength trace then
    let trace := TypedArray.store trace (size - 1) dot in
    let trace := TypedArray.store trace (size - 2) dot in
    TypedArray.store trace (size - 3) dot
  else trace.

Definition get_stacktrace (stack : option string) (buf size : Z)
  : M host unit :=
  let trace := mark_truncated (stack_trace stack) size in
  h <- get ;;
  m <- lift (TypedArray.set (memory h) (TypedArray.slice trace 0 size) buf) ;;
  modify (set_memory m).

Definition new_worker (self : nat) (task comm commLen : Z) : M host unit :=
  h <- get ;;
  let name := decode (TypedArray.slice (memory h) comm (comm + commLen)) in
  modify (postMessage self (ReqTask task name)).

Definition bringup_secondary (self : nat) (cpu idle : Z) : M host unit :=
  modify (postMessage self (ReqSecondary cpu idle)).

(** [instantiate]: a fresh [irqflags] cell, set to 0, and the import table
    closed over it; the result names the new instantiation. *)
Definition instantiate (get_dt : get_dt_fn) : M host nat :=
  h <- get ;;
  put (set_instances (instances h ++ [mkInstance get_dt 0]) h) ;;;
  ret (List.length (instances h)).

(** The calls the kernel module can make through its import table; the
    clock readings and the captured stack are what the platform supplies at
    the moment of the call. *)
Inductive call : Type :=
| CallBreakpoint
| CallHalt
| CallRestart
| CallBootConsoleWrite (msg len : Z)
| CallBootConsoleClose
| CallReturnAddress
| CallSetIrqEnabled (flags : Z)
| CallGetIrqEnabled
| CallGetDt (buf size : Z)
| CallGetNowNsec (now timeOrigin : Double.double)
| CallGetStacktrace (stack : option string) (buf size : Z)
| CallNewWorker (task comm commLen : Z)
| CallBringupSecondary (cpu idle : Z).

Inductive retval : Type :=
| RetVoid
| RetNumber (n : Z)
| RetBigInt (n : Z).

Definition void (m : M host unit) : M host retval := m ;;; ret RetVoid.

(** The import table of the instantiation [self]. *)
Definition imports (self : nat) (c : call) : M host retval :=
  match c with
  | CallBreakpoint => void breakpoint
  | CallHalt => void (halt self)
  | CallRestart => void restart
  | CallBootConsoleWrite msg len => void (boot_console_write msg len)
  | CallBootConsoleClose => void boot_console_close
  | CallReturnAddress => n <- return_address ;; ret (RetNumber n)
  | CallSetIrqEnabled flags => void (set_irq_enabled self flags)
  | CallGetIrqEnabled => n <- get_irq_enabled self ;; ret (RetNumber n)
  | CallGetDt buf size => void (get_dt self buf size)
  | CallGetNowNsec now origin =>
      n <- get_now_nsec now origin ;; ret (RetBigInt n)
  | CallGetStacktrace stack buf size => void (get_stacktrace stack buf size)
  | CallNewWorker task comm commLen =>
      void (new_worker self task comm commLen)
  | CallBringupSecondary cpu idle => void (bringup_secondary self cpu idle)
  end.

(** The calls an entry point makes, in order; an exception thrown by an
    import ends the entry call. *)
Fixpoint run_calls (self : nat) (cs : list call) : M host unit :=
  match cs with
  | [] => ret tt
  | c :: cs' => imports self c ;;; run_calls self cs'
  end.

Inductive entry : Type :=
| EntryBoot
| EntryTask (task : Z)
| EntrySecondary (cpu idle : Z).

(** The kernel module is opaque: all that is known of an exported entry
    point is the calls it makes. *)
Variable exports : module_ref -> entry -> list call.

(** [self.onmessage] *)
Definition onmessage (ev : start_message) : M host unit :=
  match ev with
  | StartBoot vmlinux _ devicetree =>
      self <- instantiate (GetDtBoot devicetree) ;;
      run_calls self (exports vmlinux EntryBoot)
  | StartTask vmlinux _ task =>
      self <- instantiate GetDtDefault ;;
      run_calls self (exports vmlinux (EntryTask task))
  | StartSecondary vmlinux _ cpu idle =>
      self <- instantiate GetDtDefault ;;
      run_calls self (exports vmlinux (EntrySecondary cpu idle))
  end.

End Bridge.

(** What happens on the host, seen from outside: an instantiation is made,
    or an existing one makes a call. *)
Inductive event : Type :=
| Instantiate (get_dt : get_dt_fn)
| Call (self : nat) (c : call).

Definition step (decode : list byte -> string) (e : event) (h : host)
  : host :=
  match e with
  | Instantiate g => snd (instantiate g h)
  | Call self c => snd (imports decode self c h)
  end.

Definition run (decode : list byte -> string) (es : list event) (h : host)
  : host :=
  fold_left (fun h e => step decode e h) es h.

(** The flags that [self] itself passed to [set_irq_enabled] in [es], in
    order. *)
Definition own_flags (self : nat) (es : list event) : list Z :=
  flat_map (fun e =>
              match e with
              | Call i (CallSetIrqEnabled flags) =>
                  if Nat.eqb i self then [flags] else []
              | _ => []
              end) es.

Definition empty_host (m : list byte) : host := mkHost m [] [] [] [] [].

End Worker.

(** ** The device-tree blob *)

Module DeviceTree.

(** A property value as the caller gives it: a raw byte buffer, a string, or
    a sequence of 32-bit cells. *)
Inductive value : Type :=
| Bytes (b : list byte)
| Text (s : string)
| Cells (cs : list Z).

(** A node: its name, its properties in order, its child nodes in order. *)
Inductive node : Type :=
| Node (name : string) (props : list (string * value)) (children : list node).

Definition FDT_MAGIC : Z := 0xd00dfeed.
Definition FDT_BEGIN_NODE : Z := 1.
Definition FDT_END_NODE : Z := 2.
Definition FDT_PROP : Z := 3.
Definition FDT_NOP : Z := 4.
Definition FDT_END : Z := 9.
Definition FDT_VERSION : Z := 17.
Definition FDT_LAST_COMP_VERSION : Z := 16.
Definition HEADER_SIZE : Z := 40.

Definition byte_of_Z (z : Z) : byte :=
  match Byte.of_N (Z.to_N (z mod 256)) with
  | Some b => b
  | None => x00
  end.

Definition Z_of_byte (b : byte) : Z := Z.of_N (Byte.to_N b).

(** A big-endian 32-bit cell. *)
Definition be32 (v : Z) : list byte :=
  [byte_of_Z (v / 256 / 256 / 256); byte_of_Z (v / 256 / 256);
   byte_of_Z (v / 256); byte_of_Z v].

(** The zero bytes that bring a field of [n] bytes to a 4-byte boundary. *)
Definition pad_len (n : nat) : nat := ((4 - n mod 4) mod 4)%nat.
Definition padding (n : nat) : list byte := repeat x00 (pad_len n).

Definition cstring (s : string) : list byte :=
  list_byte_of_string s ++ [x00].

(** *** Encoder

    Modelled from the spec: devicetree.ts is not among the sources, so
    everything up to [generateDeviceTree] follows the layout the
    specification gives for the blob. *)

(** The bytes a value occupies in its property token. *)
Definition payload (v : value) : list byte :=
  match v with
  | Bytes b => b
  | Text s => cstring s
  | Cells cs => flat_map be32 cs
  end.

Definition cell_ok (c : Z) : bool := (0 <=? c) && (c <? 2 ^ 32).

Definition value_ok (v : value) : bool :=
  match v with
  | Cells cs => forallb cell_ok cs
  | _ => true
  end.

Fixpoint cells_ok (n : node) : bool :=
  match n with
  | Node _ props children =>
      forallb (fun p => value_ok (snd p)) props && forallb cells_ok children
  end.

(** Every property name of the tree, in document order. *)
Fixpoint prop_names (n : node) : list string :=
  match n with
  | Node _ props children =>
      map fst props ++ flat_map prop_names children
  end.

Definition mem_string (s : string) (tab : list string) : bool :=
  existsb (String.eqb s) tab.

(** The string table: each name once, in order of first use. *)
Fixpoint intern (tab names : list string) : list string :=
  match names with
  | [] => tab
  | s :: r => intern (if mem_string s tab then tab else tab ++ [s]) r
  end.

Definition strings_block (tab : list string) : list byte :=
  flat_map cstring tab.

(** Offset of a name in the strings block, counting from [off]. *)
Fixpoint name_offset (tab : list string) (s : string) (off : Z) : Z :=
  match tab with
  | [] => off
  | t :: r =>
      if String.eqb s t then off
      else name_offset r s (off + Z.of_nat (List.length (cstring t)))
  end.

Definition emit_prop (tab : list string) (p : string * value) : list byte :=
  let data := payload (snd p) in
  be32 FDT_PROP
  ++ be32 (Z.of_nat (List.length data))
  ++ be32 (name_offset tab (fst p) 0)
  ++ data ++ padding (List.length data).

Definition emit_name (name : string) : list byte :=
  cstring name ++ padding (List.length (cstring name)).

Fixpoint emit_node (tab : list string) (n : node) : list byte :=
  match n with
  | Node name props children =>
      be32 FDT_BEGIN_NODE
      ++ emit_name name
      ++ flat_map (emit_prop tab) props
      ++ flat_map (emit_node tab) children
      ++ be32 FDT_END_NODE
  end.

Definition structure_block (tab : list string) (root : node) : list byte :=
  emit_node tab root ++ be32 FDT_END.

(** The reservation list is empty: only its terminating (0, 0) entry. *)
Definition reservation_block : list byte := repeat x00 16.

Definition header (totalsize off_struct off_strings off_rsvmap
                   size_strings size_struct : Z) : list byte :=
  be32 FDT_MAGIC ++ be32 totalsize ++ be32 off_struct ++ be32 off_strings
  ++ be32 off_rsvmap ++ be32 FDT_VERSION ++ be32 FDT_LAST_COMP_VERSION
  ++ be32 0 ++ be32 size_strings ++ be32 size_struct.

Definition blob_of (root : node) : list byte :=
  let tab := intern [] (prop_names root) in
  let struct := structure_block tab root in
  let strings := strings_block tab in
  let off_rsvmap := HEADER_SIZE in
  let off_struct := off_rsvmap + Z.of_nat (List.length reservation_block) in
  let off_strings := off_struct + Z.of_nat (List.length struct) in
  let totalsize := off_strings + Z.of_nat (List.length strings) in
  header totalsize off_struct off_strings off_rsvmap
         (Z.of_nat (List.length strings)) (Z.of_nat (List.length struct))
  ++ reservation_block ++ struct ++ strings.

(** Modelled from the spec: devicetree.ts ([generateDeviceTree]) is not among
    the sources.  The blob is the fixed header (magic, total size, structure
    and strings offsets, version, boot-CPU id, reservation-list offset), the
    zero-terminated reservation list, the token stream (begin-node, property,
    end-node, end; a property carries its length and string-table offset and
    is padded to 4 bytes) and the string table after it.  It fails with
    [EncodingError] when a cell does not fit 32 bits or the total size
    exceeds the declared maximum [max_total_size]; the root node has the
    empty name. *)
Definition generateDeviceTree (max_total_size : Z) (root : node)
  : result (list byte) :=
  if negb (cells_ok root) then Throw EncodingError
  else
    let blob := blob_of root in
    if max_total_size <? Z.of_nat (List.length blob) then Throw EncodingError
    else Ok blob.

(** *** Decoder

    A reader of the same flattened format, independent of the encoder: it
    only follows the offsets and tokens it finds in the blob. *)

(** A decoded node: properties carry the bytes of their token. *)
Inductive raw_node : Type :=
| RawNode (name : string) (props : list (string * list byte))
          (children : list raw_node).

Definition read_u32 (s : list byte) : option (Z * list byte) :=
  match s with
  | b0 :: b1 :: b2 :: b3 :: r =>
      Some (((Z_of_byte b0 * 256 + Z_of_byte b1) * 256 + Z_of_byte b2) * 256
            + Z_of_byte b3, r)
  | _ => None
  end.

(** The bytes before the first zero byte, and what follows that byte. *)
Fixpoint read_cstring (s : list byte) : option (list byte * list byte) :=
  match s with
  | [] => None
  | b :: r =>
      if Byte.eqb b x00 then Some ([], r)
      else match read_cstring r with
           | Some (c, r') => Some (b :: c, r')
           | None => None
           end
  end.

Definition take_bytes (n : nat) (s : list byte)
  : option (list byte * list byte) :=
  if (n <=? List.length s)%nat then Some (firstn n s, skipn n s) else None.

Definition read_name (s : list byte) : option (string * list byte) :=
  match read_cstring s with
  | Some (c, r) =>
      match take_bytes (pad_len (S (List.length c))) r with
      | Some (_, r') => Some (string_of_list_byte c, r')
      | None => None
      end
  | None => None
  end.

Definition string_at (strings : list byte) (off : Z) : option string :=
  if off <? 0 then None
  else match read_cstring (skipn (Z.to_nat off) strings) with
       | Some (c, _) => Some (string_of_list_byte c)
       | None => None
       end.

(** The items of a node up to its end-node token: properties, child nodes,
    and the rest of the stream. *)
Fixpoint parse_items (fuel : nat) (strings s : list byte)
  : option (list (string * list byte) * list raw_node * list byte) :=
  match fuel with
  | O => None
  | S fuel' =>
      match read_u32 s with
      | None => None
      | Some (tok, s1) =>
          if tok =? FDT_PROP then
            match read_u32 s1 with
            | None => None
            | Some (len, s2) =>
                match read_u32 s2 with
                | None => None
                | Some (nameoff, s3) =>
                    match take_bytes (Z.to_nat len) s3 with
                    | None => None
                    | Some (data, s4) =>
                        match take_bytes (pad_len (Z.to_nat len)) s4 with
                        | None => None
                        | Some (_, s5) =>
                            match string_at strings nameoff,
                                  parse_items fuel' strings s5 with
                            | Some name, Some (ps, cs, rest) =>
                                Some ((name, data) :: ps, cs, rest)
                            | _, _ => None
                            end
                        end
                    end
                end
            end
          else if tok =? FDT_BEGIN_NODE then
            match read_name s1 with
            | None => None
            | Some (name, s2) =>
                match parse_items fuel' strings s2 with
                | None => None
                | Some (ps1, cs1, s3) =>
                    match parse_items fuel' strings s3 with
                    | None => None
                    | Some (ps, cs, rest) =>
                        Some (ps, RawNode name ps1 cs1 :: cs, rest)
                    end
                end
            end
          else if tok =? FDT_END_NODE then Some ([], [], s1)
          else if tok =? FDT_NOP then parse_items fuel' strings s1
          else None
      end
  end.

Definition parse_structure (strings struct : list byte) : option raw_node :=
  match read_u32 struct with
  | None => None
  | Some (tok, s1) =>
      if tok =? FDT_BEGIN_NODE then
        match read_name s1 with
        | None => None
        | Some (name, s2) =>
            match parse_items (S (List.length struct)) strings s2 with
            | None => None
            | Some (ps, cs, s3) =>
                match read_u32 s3 with
                | Some (tok', _) =>
                    if tok' =? FDT_END then Some (RawNode name ps cs)
                    else None
                | None => None
                end
            end
        end
      else None
  end.

Fixpoint read_u32s (n : nat) (s : list byte) : option (list Z) :=
  match n with
  | O => Some []
  | S n' =>
      match read_u32 s with
      | None => None
      | Some (v, r) =>
          match read_u32s n' r with
          | None => None
          | Some vs => Some (v :: vs)
          end
      end
  end.

(** A decoder of the flattened format: it checks the header and reads the
    structure block against the strings block. *)
Definition fdt_parse (blob : list byte) : option raw_node :=
  match read_u32s 10 blob with
  | Some [magic; totalsize; off_struct; off_strings; _; version;
          last_comp_version; _; size_strings; size_struct] =>
      if (magic =? FDT_MAGIC)
         && (totalsize =? Z.of_nat (List.length blob))
         && (last_comp_version <=? FDT_VERSION)
         && (FDT_LAST_COMP_VERSION <=? version)
         && (off_struct + size_struct <=? totalsize)
         && (off_strings + size_strings <=? totalsize)
      then
        parse_structure
          (firstn (Z.to_nat size_strings) (skipn (Z.to_nat off_strings) blob))
          (firstn (Z.to_nat size_struct) (skipn (Z.to_nat off_struct) blob))
      else None
  | _ => None
  end.

(** The tree a decoder is expected to give back: every value as the bytes of
    its token. *)
Definition raw_prop (p : string * value) : string * list byte :=
  (fst p, payload (snd p)).

Fixpoint raw_of (n : node) : raw_node :=
  match n with
  | Node name props children =>
      RawNode name (map raw_prop props) (map raw_of children)
  end.

(** Reading a payload back at the kind of value it was written from. *)
Definition read_be32s (s : list byte) : option (list Z) :=
  if (List.length s mod 4 =? 0)%nat
  then read_u32s (List.length s / 4) s else None.

Definition reread (v : value) (data : list byte) : option value :=
  match v with
  | Bytes _ => Some (Bytes data)
  | Text _ =>
      match read_cstring data with
      | Some (c, []) => Some (Text (string_of_list_byte c))
      | _ => None
      end
  | Cells _ => option_map Cells (read_be32s data)
  end.

Definition no_nul (s : string) : bool :=
  forallb (fun b => negb (Byte.eqb b x00)) (list_byte_of_string s).

Definition text_ok (v : value) : bool :=
  match v with
  | Text s => no_nul s
  | _ => true
  end.

(** Names and strings are free of zero bytes. *)
Fixpoint names_ok (n : node) : bool :=
  match n with
  | Node name props children =>
      no_nul name
      && forallb (fun p => no_nul (fst p) && text_ok (snd p)) props
      && forallb names_ok children
  end.

(** The decoded tree [r] read at the kinds of the values of [shape]: names
    and bytes come from [r], the shape only says how to read the bytes. *)
Fixpoint typed_as (shape : node) (r : raw_node) : option node :=
  match shape, r with
  | Node _ sprops schildren, RawNode name rprops rchildren =>
      match
        (fix props (ss : list (string * value))
                   (rs : list (string * list byte))
           : option (list (string * value)) :=
           match ss, rs with
           | [], [] => Some []
           | s :: ss', r :: rs' =>
               match reread (snd s) (snd r), props ss' rs' with
               | Some v, Some l => Some ((fst r, v) :: l)
               | _, _ => None
               end
           | _, _ => None
           end) sprops rprops,
        (fix nodes (ss : list node) (rs : list raw_node)
           : option (list node) :=
           match ss, rs with
           | [], [] => Some []
           | s :: ss', r :: rs' =>
               match typed_as s r, nodes ss' rs' with
               | Some n, Some l => Some (n :: l)
               | _, _ => None
               end
           | _, _ => None
           end) schildren rchildren
      with
      | Some ps, Some cs => Some (Node name ps cs)
      | _, _ => None
      end
  end.

(** Tokens in the structure of a node: a bound on the steps a decoder
    takes. *)
Fixpoint node_fuel (n : node) : nat :=
  match n with
  | Node _ props children =>
      S (List.length props + (list_sum (map node_fuel children) + 1))
  end.

(** A property whose name is in the table [tab] and whose sizes fit the
    32-bit fields of its token. *)
Definition prop_fits (tab : list string) (p : string * value) : Prop :=
  In (fst p) tab /\ no_nul (fst p) = true
  /\ Z.of_nat (List.length (payload (snd p))) < 2 ^ 32.

(** What the decoder makes of the encoding of [n] when it is followed by a
    [tail] it can decode. *)
Definition decodes (tab : list string) (n : node) : Prop :=
  forall (f : nat) (tail : list byte) ps cs rest,
    parse_items f (strings_block tab) tail = Some (ps, cs, rest) ->
    parse_items (node_fuel n + f) (strings_block tab)
                (emit_node tab n ++ tail)
    = Some (ps, raw_of n :: cs, rest).

(** The trees the encoder accepts. *)
Definition valid_tree (max_total_size : Z) (root : node) : Prop :=
  names_ok root = true /\ cells_ok root = true
  /\ Z.of_nat (List.length (blob_of root)) <= max_total_size.

End DeviceTree.

(** ** main.ts *)

Module Main.

(** A [Worker] object the orchestrator has created. *)
Record worker : Type := mkWorker {
  worker_name : string;
  onmessage_set : bool;
  inbox : list start_message
}.

(** What the orchestrator does, in the order it does it. *)
Inductive action : Type :=
| Created (w : nat)
| Listening (w : nat)
| Posted (w : nat) (msg : start_message).

Record orchestrator : Type := mkOrchestrator {
  vmlinux : module_ref;
  memory : memory_ref;
  workers : list worker;
  history : list action
}.

Definition cmdline : string := "no_hash_pointers".
Definition PAGE_SIZE : Z := Z.shiftl 1 16.
Definition memoryPages : Z := 1024.

Local Open Scope js_scope.

(** [new Worker(url, { name, type: "module" })] *)
Definition new_Worker (name : string) : M orchestrator nat :=
  o <- get ;;
  let w := List.length (workers o) in
  put (mkOrchestrator (vmlinux o) (memory o)
         (workers o ++ [mkWorker name false []])
         (history o ++ [Created w])) ;;;
  ret w.

(** [listen(worker)]: install the [onmessage] handler, return the worker. *)
Definition listen (w : nat) : M orchestrator nat :=
  modify (fun o =>
    mkOrchestrator (vmlinux o) (memory o)
      (update_nth w (fun x => mkWorker (worker_name x) true (inbox x))
                  (workers o))
      (history o ++ [Listening w])) ;;;
  ret w.

(** [worker.postMessage(msg)] *)
Definition postMessage (w : nat) (msg : start_message)
  : M orchestrator unit :=
  modify (fun o =>
    mkOrchestrator (vmlinux o) (memory o)
      (update_nth w
         (fun x => mkWorker (worker_name x) (onmessage_set x)
                            (inbox x ++ [msg]))
         (workers o))
      (history o ++ [Posted w msg])).

(** The handler [listen] installs: the body of [worker.onmessage]. *)
Definition handler (ev : spawn_request) : M orchestrator unit :=
  o <- get ;;
  match ev with
  | ReqTask task name =>
      w <- new_Worker name ;;
      w <- listen w ;;
      postMessage w (StartTask (vmlinux o) (memory o) task)
  | ReqSecondary cpu idle =>
      w <- new_Worker "secondary" ;;
      w <- listen w ;;
      postMessage w (StartSecondary (vmlinux o) (memory o) cpu idle)
  end.

(** A message from the worker [src] reaches the orchestrator: it is handled
    when [src] has a handler installed and dropped otherwise. *)
Definition deliver (src : nat) (ev : spawn_request) : M orchestrator unit :=
  o <- get ;;
  match nth_error (workers o) src with
  | Some x => if onmessage_set x then handler ev else ret tt
  | None => ret tt
  end.

(** The tree passed to [generateDeviceTree]; [seed] is what
    [crypto.getRandomValues(new Uint8Array(64))] returned. *)
Definition boot_tree (seed : list byte) : DeviceTree.node :=
  DeviceTree.Node "" []
    [ DeviceTree.Node "chosen"
        [ ("rng-seed"%string, DeviceTree.Bytes seed);
          ("bootargs"%string, DeviceTree.Text cmdline) ] [];
      DeviceTree.Node "aliases" [] [];
      DeviceTree.Node "memory"
        [ ("device_type"%string, DeviceTree.Text "memory");
          ("reg"%string, DeviceTree.Cells [0; memoryPages * PAGE_SIZE]) ] []
    ].

(** The top level of the script after the memory and the module exist. *)
Definition main (max_total_size : Z) (seed : list byte)
  : M orchestrator unit :=
  o <- get ;;
  devicetree <- (fun s =>
    (DeviceTree.generateDeviceTree max_total_size (boot_tree seed), s)) ;;
  w <- new_Worker "boot" ;;
  w <- listen w ;;
  postMessage w (StartBoot (vmlinux o) (memory o) devicetree).

Definition start (vmlinux : module_ref) (memory : memory_ref)
  : orchestrator :=
  mkOrchestrator vmlinux memory [] [].

(** The orchestrator after the messages [msgs], each with its sender, have
    reached it in that order. *)
Definition relay (msgs : list (nat * spawn_request)) (o : orchestrator)
  : orchestrator :=
  fold_left (fun o m => snd (deliver (fst m) (snd m) o)) msgs o.

(** The state a spawn leaves: one more worker, created, listened to and
    then posted its start message. *)
Definition spawned (o : orchestrator) (name : string) (msg : start_message)
  : orchestrator :=
  let w := List.length (workers o) in
  mkOrchestrator (vmlinux o) (memory o)
    (workers o ++ [mkWorker name true [msg]])
    (((history o ++ [Created w]) ++ [Listening w]) ++ [Posted w msg]).

(** Every occurrence of [b] in the history comes after an occurrence of
    [a]. *)
Fixpoint before (a b : action -> bool) (l : list action) : bool :=
  match l with
  | [] => true
  | x :: r => if a x then true else if b x then false else before a b r
  end.

Definition is_listening (w : nat) (a : action) : bool :=
  match a with
  | Listening w' => Nat.eqb w w'
  | _ => false
  end.

Definition is_posted (w : nat) (a : action) : bool :=
  match a with
  | Posted w' _ => Nat.eqb w w'
  | _ => false
  end.

(** What holds of every state the orchestrator reaches: each worker has the
    handler installed and one start message, posted after [listen]. *)
Definition listening_everywhere (o : orchestrator) : Prop :=
  (forall w x, nth_error (workers o) w = Some x ->
               onmessage_set x = true /\ exists msg, inbox x = [msg])
  /\ forall w, before (is_listening w) (is_posted w) (history o) = true.

End Main.

(** ** Concrete inputs used to exercise the statements *)

Module Samples.
Import Worker.

(** A stack whose first five lines are the ones [get_stacktrace] drops and
    whose trimmed trace is the nine bytes of "frame1\nf2". *)
Definition sample_stack : string :=
  join_lines ["Error"; "at get_stacktrace"; "at wasm"; "at boot"; "at onmessage";
              "frame1"; "f2"]%string.

Definition zeros (n : nat) : list byte := repeat x00 n.

Definition sample_blob : list byte := list_byte_of_string "devtree!".

(** A kernel that does nothing, and the hosts left by one start message. *)
Definition idle_kernel (_ : module_ref) (_ : entry) : list call := [].

Definition boot_host : host :=
  snd (onmessage string_of_list_byte idle_kernel
         (StartBoot 0%nat 0%nat sample_blob) (empty_host (zeros 16))).

Definition task_host : host :=
  snd (onmessage string_of_list_byte idle_kernel
         (StartTask 0%nat 0%nat 7) (empty_host (zeros 16))).

(** A host whose memory holds the name "worker-a" at offset 4. *)
Definition worker_a_host : host :=
  mkHost (zeros 4 ++ list_byte_of_string "worker-a" ++ zeros 4)
         [mkInstance GetDtDefault 0] [] [] [] [].

(** The orchestrator once the top level of main.ts has run. *)
Definition booted : Main.orchestrator :=
  snd (Main.main 65536 (zeros 64) (Main.start 1%nat 2%nat)).

(** The worker object of the boot context in [booted]. *)
Definition boot_worker : Main.worker :=
  Main.mkWorker "boot" true
    [StartBoot 1%nat 2%nat (DeviceTree.blob_of (Main.boot_tree (zeros 64)))].

End Samples.

(** ** What the bridge and the orchestrator are observed by *)

Module Observe.
Import Worker.

(** The calls whose body stores into the shared memory. *)
Definition writes_memory (c : call) : bool :=
  match c with
  | CallGetDt _ _ | CallGetStacktrace _ _ _ => true
  | _ => false
  end.

(** The calls whose body has a throwing operation. *)
Definition can_throw (c : call) : bool :=
  match c with
  | CallGetDt _ _ | CallGetStacktrace _ _ _ | CallGetNowNsec _ _ => true
  | _ => false
  end.

(** A spawn request without the decoded name. *)
Inductive spawn_key : Type :=
| KeyTask (task : Z)
| KeySecondary (cpu idle : Z).

Definition key_of (r : spawn_request) : spawn_key :=
  match r with
  | ReqTask task _ => KeyTask task
  | ReqSecondary cpu idle => KeySecondary cpu idle
  end.

(** The spawn calls among the events, with their caller, in order. *)
Definition spawn_calls (es : list event) : list (nat * spawn_key) :=
  flat_map (fun e =>
              match e with
              | Call i (CallNewWorker task _ _) => [(i, KeyTask task)]
              | Call i (CallBringupSecondary cpu idle) =>
                  [(i, KeySecondary cpu idle)]
              | _ => []
              end) es.

Definition no_newline (s : string) : bool :=
  forallb (fun c => negb (Ascii.eqb c newline)) (list_ascii_of_string s).

Definition is_finite (x : Double.double) : bool :=
  match x with
  | Double.Fin _ _ => true
  | _ => false
  end.

(** A finite value that is not negative. *)
Definition nonneg (x : Double.double) : Prop :=
  match x with
  | Double.Fin m _ => 0 <= m
  | _ => False
  end.

(** Of the messages [msgs], those whose sender is a worker that exists when
    the message arrives, the orchestrator having [n] workers at first. *)
Fixpoint accepted (n : nat) (msgs : list (nat * spawn_request)) : nat :=
  match msgs with
  | [] => O
  | (src, _) :: r =>
      if (src <? n)%nat then S (accepted (S n) r) else accepted n r
  end.

(** The module and memory a start message carries. *)
Definition handles (msg : start_message) : module_ref * memory_ref :=
  match msg with
  | StartBoot v m _ => (v, m)
  | StartTask v m _ => (v, m)
  | StartSecondary v m _ _ => (v, m)
  end.

(** Every start message ever posted carries the handles [v] and [m]. *)
Definition shares (v : module_ref) (m : memory_ref) (o : Main.orchestrator)
  : Prop :=
  Main.vmlinux o = v /\ Main.memory o = m
  /\ Forall (fun x => Forall (fun msg => handles msg = (v, m)) (Main.inbox x))
            (Main.workers o).

End Observe.

(** * Properties *)

(** ** Uint8Array: what [slice] and [set] do to the bytes *)

Module TypedArrayFacts.
Import TypedArray.

Lemma slice_from_0 (a : list byte) (size : Z) :
  0 <= size -> slice a 0 size = firstn (Z.to_nat size) a.
Proof.
  intros Hs. unfold slice, clamp_index, byteLength.
  replace (0 <? 0) with false by reflexivity.
  destruct (size <? 0) eqn:E; [apply Z.ltb_lt in E; lia|].
  rewrite (Z.min_l 0) by lia. simpl skipn. rewrite Z.sub_0_r.
  destruct (Z.le_ge_cases size (Z.of_nat (List.length a))) as [H|H].
  - rewrite Z.min_l by lia. reflexivity.
  - rewrite Z.min_r by lia. rewrite Nat2Z.id.
    rewrite !firstn_all2; auto; lia.
Qed.

Lemma slice_from_0_length (a : list byte) (size : Z) :
  0 <= size -> byteLength (slice a 0 size) <= size.
Proof.
  intros Hs. rewrite slice_from_0 by assumption. unfold byteLength.
  rewrite length_firstn. lia.
Qed.

Lemma slice_whole (a : list byte) (size : Z) :
  byteLength a <= size -> slice a 0 size = a.
Proof.
  unfold byteLength. intros H. rewrite slice_from_0 by lia.
  apply firstn_all2. lia.
Qed.

Lemma splice_length (t s : list byte) (o : nat) :
  (o + List.length s <= List.length t)%nat ->
  List.length (splice t s o) = List.length t.
Proof.
  intros H. unfold splice.
  rewrite !length_app, length_firstn, length_skipn. lia.
Qed.

Lemma splice_outside (t s : list byte) (o i : nat) :
  (o + List.length s <= List.length t)%nat ->
  (i < o \/ o + List.length s <= i)%nat ->
  nth_error (splice t s o) i = nth_error t i.
Proof.
  intros Hfit Hi. unfold splice. destruct Hi as [Hi|Hi].
  - rewrite nth_error_app1 by (rewrite length_firstn; lia).
    rewrite nth_error_firstn.
    destruct (i <? o)%nat eqn:E; [reflexivity|apply Nat.ltb_ge in E; lia].
  - rewrite nth_error_app2 by (rewrite length_firstn; lia).
    rewrite nth_error_app2 by (rewrite length_firstn; lia).
    rewrite nth_error_skipn, length_firstn. f_equal. lia.
Qed.

Lemma splice_inside (t s : list byte) (o j : nat) :
  (o <= List.length t)%nat -> (j < List.length s)%nat ->
  nth_error (splice t s o) (o + j) = nth_error s j.
Proof.
  intros Ho Hj. unfold splice.
  rewrite nth_error_app2 by (rewrite length_firstn; lia).
  rewrite length_firstn, Nat.min_l by assumption.
  replace (o + j - o)%nat with j by lia.
  apply nth_error_app1. assumption.
Qed.

Lemma set_in_range (t s : list byte) (offset : Z) :
  0 <= offset -> offset + byteLength s <= byteLength t ->
  set t s offset = Ok (splice t s (Z.to_nat offset)).
Proof.
  intros H0 H1. unfold set.
  destruct (offset <? 0) eqn:E; [apply Z.ltb_lt in E; lia|].
  destruct (byteLength t <? byteLength s + offset) eqn:F;
    [apply Z.ltb_lt in F; lia|].
  reflexivity.
Qed.

(** Whatever [set] does, a successful copy is a splice that fits. *)
Lemma set_Ok (t s m : list byte) (offset : Z) :
  set t s offset = Ok m ->
  0 <= offset /\ offset + byteLength s <= byteLength t
  /\ m = splice t s (Z.to_nat offset).
Proof.
  unfold set.
  destruct (offset <? 0) eqn:E; simpl; [discriminate|].
  destruct (byteLength t <? byteLength s + offset) eqn:F; [discriminate|].
  intros H. inversion H. apply Z.ltb_ge in E, F. repeat split; lia.
Qed.

Lemma set_Throw (t s : list byte) (offset : Z) (e : exn) :
  set t s offset = Throw e -> e = RangeError.
Proof.
  unfold set.
  destruct ((offset <? 0) || (byteLength t <? byteLength s + offset));
    congruence.
Qed.

End TypedArrayFacts.

(** ** The bridge: memory writes of [get_stacktrace] and [get_dt] *)

Module WorkerFacts.
Import Worker TypedArray TypedArrayFacts Samples.

(** C9 -- with a capacity [size >= 0], [get_stacktrace buf size] copies at
    most [size] bytes, to [buf] onwards, or throws [RangeError] and copies
    nothing; every byte below [buf] and every byte at or past [buf + size]
    is as before, whatever the length of the trace. *)
Theorem get_stacktrace_within_capacity
  (stack : option string) (buf size : Z) (h : host) :
  0 <= size ->
  exists written : list byte,
    byteLength written <= size
    /\ (get_stacktrace stack buf size h = (Throw RangeError, h)
        \/ (0 <= buf
            /\ buf + byteLength written <= byteLength (memory h)
            /\ get_stacktrace stack buf size h
               = (Ok tt, set_memory (splice (memory h) written (Z.to_nat buf))
                                    h)))
    /\ forall i : nat,
         Z.of_nat i < buf \/ buf + size <= Z.of_nat i ->
         nth_error (memory (snd (get_stacktrace stack buf size h))) i
         = nth_error (memory h) i.
Proof.
  intros Hsize.
  set (trace := mark_truncated (stack_trace stack) size).
  exists (slice trace 0 size).
  assert (Hlen : byteLength (slice trace 0 size) <= size)
    by (apply slice_from_0_length; assumption).
  split; [exact Hlen|].
  unfold get_stacktrace, bind, get, lift, modify. fold trace.
  destruct (set (memory h) (slice trace 0 size) buf) as [m|e] eqn:E.
  - apply set_Ok in E. destruct E as (Hb & Hfit & ->).
    split; [right; repeat split; assumption|].
    intros i Hi. simpl. apply splice_outside.
    + unfold byteLength in Hfit. lia.
    + unfold byteLength in Hlen. lia.
  - pose proof (set_Throw _ _ _ _ E) as ->.
    split; [left; reflexivity|]. intros i _. reflexivity.
Qed.

Lemma get_stacktrace_within_capacity_witness :
  0 <= 5
  /\ exists written : list byte,
       byteLength written <= 5
       /\ (get_stacktrace (Some sample_stack) 2 5
             (empty_host (zeros 16))
           = (Throw RangeError, empty_host (zeros 16))
           \/ (0 <= 2
               /\ 2 + byteLength written
                  <= byteLength (memory (empty_host (zeros 16)))
               /\ get_stacktrace (Some sample_stack) 2 5
                    (empty_host (zeros 16))
                  = (Ok tt,
                     set_memory
                       (splice (memory (empty_host (zeros 16))) written
                               (Z.to_nat 2))
                       (empty_host (zeros 16)))))
       /\ forall i : nat,
            Z.of_nat i < 2 \/ 2 + 5 <= Z.of_nat i ->
            nth_error
              (memory (snd (get_stacktrace (Some sample_stack) 2 5
                              (empty_host (zeros 16))))) i
            = nth_error (memory (empty_host (zeros 16))) i.
Proof.
  split; [lia|].
  apply (get_stacktrace_within_capacity (Some sample_stack) 2 5
           (empty_host (zeros 16))).
  lia.
Defined.

(** C1 -- the truncation marker of [get_stacktrace] is written in the wrong
    case.  The trimmed trace is the 9 bytes "frame1\nf2".  With capacity 5,
    too small for the trace, the five bytes "frame" are copied and no marker
    is written; with capacity 10, larger than the trace, the last two bytes
    of the complete trace are replaced by dots; only with capacity 9 do the
    last three bytes copied become the marker. *)
Theorem get_stacktrace_marker_misplaced :
  stack_trace (Some sample_stack)
  = list_byte_of_string (join_lines ["frame1"; "f2"]%string)
  /\ memory (snd (get_stacktrace (Some sample_stack) 2 5
                    (empty_host (zeros 16))))
     = zeros 2 ++ list_byte_of_string "frame" ++ zeros 9
  /\ memory (snd (get_stacktrace (Some sample_stack) 2 10
                    (empty_host (zeros 16))))
     = zeros 2 ++ list_byte_of_string (join_lines ["frame1"; ".."]%string)
       ++ zeros 5
  /\ memory (snd (get_stacktrace (Some sample_stack) 2 9
                    (empty_host (zeros 16))))
     = zeros 2 ++ list_byte_of_string "frame1..." ++ zeros 5.
Proof. repeat split; reflexivity. Qed.

(** When the trace is longer than the capacity, nothing marks it: the
    bytes copied are the first [size] bytes of the trace. *)
Lemma get_stacktrace_truncates_unmarked
  (stack : option string) (buf size : Z) (h : host) :
  0 <= size < byteLength (stack_trace stack) ->
  0 <= buf -> buf + size <= byteLength (memory h) ->
  get_stacktrace stack buf size h
  = (Ok tt,
     set_memory
       (splice (memory h) (firstn (Z.to_nat size) (stack_trace stack))
               (Z.to_nat buf)) h).
Proof.
  intros Hsize Hbuf Hfit. unfold get_stacktrace, mark_truncated.
  destruct (size >=? byteLength (stack_trace stack)) eqn:E;
    [rewrite Z.geb_leb in E; apply Z.leb_le in E; lia|].
  unfold bind, get, lift, modify.
  rewrite slice_from_0 by lia. rewrite set_in_range; [reflexivity|lia|].
  unfold byteLength in *. rewrite length_firstn. lia.
Qed.

(** The instantiation [onmessage] makes for a start message. *)
Lemma onmessage_instantiates
  (decode : list byte -> string) (exports : module_ref -> entry -> list call)
  (ev : start_message) (h : host) :
  (forall v e, exports v e = []) ->
  onmessage decode exports ev h
  = (Ok tt,
     set_instances
       (instances h
        ++ [mkInstance
              match ev with
              | StartBoot _ _ devicetree => GetDtBoot devicetree
              | _ => GetDtDefault
              end 0]) h).
Proof.
  intros He. destruct ev; unfold onmessage, bind, instantiate, get, put, ret;
    simpl; rewrite He; reflexivity.
Qed.

Lemma get_dt_unfold (self : nat) (i : instance) (buf size : Z) (h : host) :
  nth_error (instances h) self = Some i ->
  get_dt self buf size h
  = match inst_get_dt i with
    | GetDtDefault => get_dt_default buf size h
    | GetDtBoot devicetree => get_dt_boot devicetree buf size h
    end.
Proof.
  intros Hi. unfold get_dt, bind, get. rewrite Hi.
  destruct (inst_get_dt i); reflexivity.
Qed.

(** C3 -- [get_dt] of a boot instantiation (the closure [onmessage] builds
    around the blob [devicetree]), called for a region that lies in the
    shared memory: with [size] at least the length of the blob, the whole
    blob is copied to [buf] and no byte outside [buf, buf + length) changes;
    with [size] below the length the assertion "Device tree truncated" fails
    and the state is as before the call. *)
Theorem get_dt_boot_copies_or_asserts
  (self : nat) (i : instance) (devicetree : list byte) (buf size : Z)
  (h : host) :
  nth_error (instances h) self = Some i ->
  inst_get_dt i = GetDtBoot devicetree ->
  (byteLength devicetree <= size ->
   0 <= buf ->
   buf + byteLength devicetree <= byteLength (memory h) ->
   get_dt self buf size h
   = (Ok tt, set_memory (splice (memory h) devicetree (Z.to_nat buf)) h)
   /\ (forall j : nat,
         (j < List.length devicetree)%nat ->
         nth_error (memory (snd (get_dt self buf size h))) (Z.to_nat buf + j)
         = nth_error devicetree j)
   /\ (forall k : nat,
         Z.of_nat k < buf \/ buf + byteLength devicetree <= Z.of_nat k ->
         nth_error (memory (snd (get_dt self buf size h))) k
         = nth_error (memory h) k))
  /\ (size < byteLength devicetree ->
      get_dt self buf size h
      = (Throw (AssertionError "Device tree truncated"), h)).
Proof.
  intros Hi Hboot. rewrite (get_dt_unfold _ _ _ _ _ Hi), Hboot.
  unfold get_dt_boot, assert, bind, get, lift, modify, throw, ret.
  split.
  - intros Hsize Hbuf Hfit.
    destruct (size >=? byteLength devicetree) eqn:E;
      [|rewrite Z.geb_leb in E; apply Z.leb_gt in E; lia].
    rewrite slice_whole by assumption.
    rewrite set_in_range by assumption. simpl.
    unfold byteLength in *.
    repeat split.
    + intros j Hj. apply splice_inside; lia.
    + intros k Hk. apply splice_outside; lia.
  - intros Hsmall.
    destruct (size >=? byteLength devicetree) eqn:E;
      [rewrite Z.geb_leb in E; apply Z.leb_le in E; lia|].
    reflexivity.
Qed.

Lemma get_dt_boot_copies_or_asserts_witness :
  nth_error (instances boot_host) 0
  = Some (mkInstance (GetDtBoot sample_blob) 0)
  /\ get_dt 0 4 8 boot_host
     = (Ok tt, set_memory (zeros 4 ++ sample_blob ++ zeros 4) boot_host)
  /\ get_dt 0 4 7 boot_host
     = (Throw (AssertionError "Device tree truncated"), boot_host).
Proof.
  split; [reflexivity|]. split.
  - destruct (get_dt_boot_copies_or_asserts 0
                (mkInstance (GetDtBoot sample_blob) 0) sample_blob 4 8
                boot_host eq_refl eq_refl) as [Hcopy _].
    destruct Hcopy as [Hcopy _].
    + apply Z.leb_le. reflexivity.
    + lia.
    + apply Z.leb_le. reflexivity.
    + rewrite Hcopy. reflexivity.
  - apply (get_dt_boot_copies_or_asserts 0
             (mkInstance (GetDtBoot sample_blob) 0) sample_blob 4 7
             boot_host eq_refl eq_refl).
    apply Z.ltb_lt. reflexivity.
Defined.

(** C4 -- [get_dt] of an instantiation made without a [get_dt] argument, as
    [onmessage] makes for a task or a secondary message: the call returns
    normally, its only effect is one line on the error console, and the
    shared memory is untouched. *)
Theorem get_dt_non_boot_no_write
  (self : nat) (i : instance) (buf size : Z) (h : host) :
  nth_error (instances h) self = Some i ->
  inst_get_dt i = GetDtDefault ->
  get_dt self buf size h
  = (Ok tt, log_error "get_dt called on non-boot thread" h)
  /\ memory (snd (get_dt self buf size h)) = memory h.
Proof.
  intros Hi Hd. rewrite (get_dt_unfold _ _ _ _ _ Hi), Hd.
  split; reflexivity.
Qed.

Lemma get_dt_non_boot_no_write_witness :
  nth_error (instances task_host) 0 = Some (mkInstance GetDtDefault 0)
  /\ get_dt 0 4 8 task_host
     = (Ok tt, log_error "get_dt called on non-boot thread" task_host)
  /\ memory (snd (get_dt 0 4 8 task_host)) = zeros 16.
Proof.
  split; [reflexivity|].
  apply (get_dt_non_boot_no_write 0 (mkInstance GetDtDefault 0) 4 8
           task_host);
    reflexivity.
Defined.

(** A task or secondary context whose kernel calls [get_dt]: the entry call
    runs to its end, the memory is as before, one line is logged. *)
Lemma onmessage_non_boot_get_dt
  (decode : list byte -> string) (exports : module_ref -> entry -> list call)
  (ev : start_message) (buf size : Z) (h : host) :
  (forall v m dt, ev <> StartBoot v m dt) ->
  (forall v e, exports v e = [CallGetDt buf size]) ->
  exists h',
    onmessage decode exports ev h = (Ok tt, h')
    /\ memory h' = memory h
    /\ console_error h'
       = console_error h ++ ["get_dt called on non-boot thread"%string].
Proof.
  intros Hev Hk. destruct ev as [v m dt|v m task|v m cpu idle].
  - exfalso. exact (Hev v m dt eq_refl).
  - unfold onmessage. rewrite Hk.
    unfold instantiate, run_calls, imports, void, get_dt, bind, get, put, ret.
    simpl. rewrite nth_error_app2 by lia. rewrite Nat.sub_diag. simpl.
    eexists. split; [reflexivity|]. split; reflexivity.
  - unfold onmessage. rewrite Hk.
    unfold instantiate, run_calls, imports, void, get_dt, bind, get, put, ret.
    simpl. rewrite nth_error_app2 by lia. rewrite Nat.sub_diag. simpl.
    eexists. split; [reflexivity|]. split; reflexivity.
Qed.

End WorkerFacts.

(** ** The interrupt flag of an instantiation *)

Module InterruptFlag.
Import Worker.

Lemma update_nth_length {A} (f : A -> A) (l : list A) (n : nat) :
  List.length (update_nth n f l) = List.length l.
Proof.
  revert n. induction l as [|x l IH]; intros [|n]; simpl; auto.
Qed.

Lemma nth_error_update_nth {A} (f : A -> A) (l : list A) (n k : nat) :
  nth_error (update_nth n f l) k
  = if Nat.eqb n k then option_map f (nth_error l k) else nth_error l k.
Proof.
  revert n k. induction l as [|x l IH]; intros [|n] [|k]; simpl; auto;
    destruct (Nat.eqb _ _); reflexivity.
Qed.

Lemma last_cons {A} (x d : A) (l : list A) : last (x :: l) d = last l x.
Proof.
  revert x d. induction l as [|y l IH]; intros x d; [reflexivity|].
  change (last (x :: y :: l) d) with (last (y :: l) d).
  rewrite (IH y d), (IH y x). reflexivity.
Qed.

(** Only [set_irq_enabled] touches the closure state, and only that of the
    instantiation it belongs to. *)
Lemma imports_instances
  (decode : list byte -> string) (i : nat) (c : call) (h : host) :
  instances (snd (imports decode i c h))
  = match c with
    | CallSetIrqEnabled flags =>
        update_nth i (fun x => mkInstance (inst_get_dt x) flags) (instances h)
    | _ => instances h
    end.
Proof.
  destruct c; try reflexivity.
  - unfold imports, void, get_dt, bind, get. simpl.
    destruct (nth_error (instances h) i) as [x|]; [|reflexivity].
    destruct (inst_get_dt x); [reflexivity|].
    unfold get_dt_boot, assert, bind, get, lift, modify, throw, ret.
    destruct (size >=? _); [|reflexivity].
    destruct (TypedArray.set _ _ _); reflexivity.
  - unfold imports, get_now_nsec, bind, lift, ret.
    destruct (Double.BigInt _); reflexivity.
  - unfold imports, void, get_stacktrace, bind, get, lift, modify, ret.
    destruct (TypedArray.set _ _ _); reflexivity.
Qed.

Lemma step_keeps_instance
  (decode : list byte -> string) (e : event) (h : host) (self : nat) :
  (self < List.length (instances h))%nat ->
  (self < List.length (instances (step decode e h)))%nat.
Proof.
  intros Hs. destruct e as [g|i c]; simpl.
  - rewrite length_app. lia.
  - rewrite imports_instances. destruct c; try assumption.
    rewrite update_nth_length. assumption.
Qed.

Lemma step_irqflags
  (decode : list byte -> string) (e : event) (h : host) (self : nat) :
  (self < List.length (instances h))%nat ->
  irqflags_of self (step decode e h)
  = last (own_flags self [e]) (irqflags_of self h).
Proof.
  intros Hs. unfold irqflags_of. destruct e as [g|i c]; simpl.
  - rewrite nth_error_app1 by assumption. reflexivity.
  - rewrite imports_instances. destruct c; try reflexivity.
    rewrite nth_error_update_nth.
    destruct (nth_error (instances h) self) as [x|] eqn:E.
    + destruct (Nat.eqb i self); reflexivity.
    + apply nth_error_None in E. lia.
Qed.

Lemma run_irqflags
  (decode : list byte -> string) (es : list event) (h : host) (self : nat) :
  (self < List.length (instances h))%nat ->
  irqflags_of self (run decode es h)
  = last (own_flags self es) (irqflags_of self h).
Proof.
  revert h. induction es as [|e es IH]; intros h Hs; [reflexivity|].
  change (run decode (e :: es) h) with (run decode es (step decode e h)).
  rewrite IH by (apply step_keeps_instance; assumption).
  rewrite step_irqflags by assumption.
  destruct e as [g|i c]; try reflexivity.
  destruct c; try reflexivity.
  unfold own_flags. simpl flat_map. fold (own_flags self es).
  destruct (Nat.eqb i self); [|reflexivity].
  change (last (own_flags self es) flags
          = last (flags :: own_flags self es) (irqflags_of self h)).
  symmetry. apply last_cons.
Qed.

(** Two instantiations, each setting its own flag: each reads its own. *)
Example two_instantiations :
  let h := run string_of_list_byte
               [Instantiate GetDtDefault; Instantiate GetDtDefault;
                Call 0 (CallSetIrqEnabled 1); Call 1 (CallSetIrqEnabled 5);
                Call 1 (CallSetIrqEnabled 0)]
               (empty_host []) in
  fst (get_irq_enabled 0 h) = Ok 1 /\ fst (get_irq_enabled 1 h) = Ok 0.
Proof. split; reflexivity. Qed.

(** C7 -- an instantiation made at any point of the life of the host reads,
    through [get_irq_enabled], the flag it last passed itself to
    [set_irq_enabled], and 0 when it has passed none; what the other
    instantiations do, their [set_irq_enabled] calls included, has no part in
    the value. *)
Theorem irqflags_is_per_instantiation
  (decode : list byte -> string) (before after : list event)
  (g : get_dt_fn) (h0 : host) :
  let self := List.length (instances (run decode before h0)) in
  let h := run decode (before ++ Instantiate g :: after) h0 in
  get_irq_enabled self h = (Ok (last (own_flags self after) 0), h).
Proof.
  intros self h. unfold get_irq_enabled, bind, get, ret. f_equal. f_equal.
  unfold h, run. rewrite fold_left_app. simpl.
  fold (run decode before h0). 
  set (h1 := run decode before h0).
  change (fold_left (fun h e => step decode e h) after ?x)
    with (run decode after x).
  rewrite run_irqflags.
  - f_equal. unfold irqflags_of. simpl.
    rewrite nth_error_app2 by (unfold self, h1; lia).
    unfold self, h1. rewrite Nat.sub_diag. reflexivity.
  - simpl. rewrite length_app. simpl. unfold self, h1. lia.
Qed.

End InterruptFlag.

(** ** Spawn requests: from the bridge to a new worker *)

Module SpawnRelay.
Import Worker Main Samples.

Lemma update_nth_last {A} (f : A -> A) (l : list A) (x : A) :
  update_nth (List.length l) f (l ++ [x]) = l ++ [f x].
Proof. induction l as [|y l IH]; simpl; [reflexivity|]. rewrite IH. reflexivity. Qed.

Lemma spawn_sequence (o : orchestrator) (name : string) (msg : start_message) :
  bind (new_Worker name) (fun w => bind (listen w) (fun w => postMessage w msg))
       o
  = (Ok tt, spawned o name msg).
Proof.
  unfold new_Worker, listen, postMessage, bind, get, put, modify, ret, spawned.
  simpl. rewrite update_nth_last. simpl. rewrite update_nth_last. reflexivity.
Qed.

Lemma handler_spawns (ev : spawn_request) (o : orchestrator) :
  handler ev o
  = (Ok tt,
     match ev with
     | ReqTask task name =>
         spawned o name (StartTask (vmlinux o) (memory o) task)
     | ReqSecondary cpu idle =>
         spawned o "secondary"
                 (StartSecondary (vmlinux o) (memory o) cpu idle)
     end).
Proof.
  destruct ev; unfold handler; unfold bind at 1; unfold get;
    apply spawn_sequence.
Qed.

Lemma deliver_listening (src : nat) (x : worker) (ev : spawn_request)
  (o : orchestrator) :
  nth_error (workers o) src = Some x -> onmessage_set x = true ->
  deliver src ev o = handler ev o.
Proof.
  intros Hx Hl. unfold deliver, bind, get. rewrite Hx, Hl. reflexivity.
Qed.

(** C6 -- one [new_worker] call whose name region decodes to [N] posts
    exactly one message, [ReqTask task N]; one [bringup_secondary] call posts
    exactly one, [ReqSecondary cpu idle]; and the orchestrator, receiving
    either from a worker it listens to, creates exactly one worker and posts
    it the module, the memory and the handle (task), or the cpu index and
    idle handle (secondary). *)
Theorem spawn_request_is_relayed_once
  (decode : list byte -> string) (self : nat) (task comm commLen : Z)
  (N : string) (cpu idle : Z) (h : host)
  (o : orchestrator) (src : nat) (x : worker) :
  decode (TypedArray.slice (Worker.memory h) comm (comm + commLen)) = N ->
  nth_error (workers o) src = Some x ->
  onmessage_set x = true ->
  (exists h',
     new_worker decode self task comm commLen h = (Ok tt, h')
     /\ posted h' = posted h ++ [(self, ReqTask task N)]
     /\ Worker.memory h' = Worker.memory h)
  /\ (exists h',
        bringup_secondary self cpu idle h = (Ok tt, h')
        /\ posted h' = posted h ++ [(self, ReqSecondary cpu idle)]
        /\ Worker.memory h' = Worker.memory h)
  /\ (exists o',
        deliver src (ReqTask task N) o = (Ok tt, o')
        /\ workers o'
           = workers o
             ++ [mkWorker N true [StartTask (vmlinux o) (memory o) task]])
  /\ (exists o',
        deliver src (ReqSecondary cpu idle) o = (Ok tt, o')
        /\ workers o'
           = workers o
             ++ [mkWorker "secondary" true
                   [StartSecondary (vmlinux o) (memory o) cpu idle]]).
Proof.
  intros Hname Hx Hl. repeat split.
  - eexists. unfold new_worker, bind, get, modify. rewrite Hname.
    repeat split; reflexivity.
  - eexists. unfold bringup_secondary, modify. repeat split; reflexivity.
  - eexists. rewrite (deliver_listening _ _ _ _ Hx Hl), handler_spawns.
    split; reflexivity.
  - eexists. rewrite (deliver_listening _ _ _ _ Hx Hl), handler_spawns.
    split; reflexivity.
Qed.

Lemma spawn_request_is_relayed_once_witness :
  string_of_list_byte
    (TypedArray.slice (Worker.memory worker_a_host) 4 (4 + 8))
  = "worker-a"%string
  /\ nth_error (workers booted) 0 = Some boot_worker
  /\ onmessage_set boot_worker = true
  /\ (exists h',
        new_worker string_of_list_byte 0 7 4 8 worker_a_host = (Ok tt, h')
        /\ posted h' = posted worker_a_host ++ [(0%nat, ReqTask 7 "worker-a")]
        /\ Worker.memory h' = Worker.memory worker_a_host)
  /\ (exists h',
        bringup_secondary 0 2 99 worker_a_host = (Ok tt, h')
        /\ posted h' = posted worker_a_host ++ [(0%nat, ReqSecondary 2 99)]
        /\ Worker.memory h' = Worker.memory worker_a_host)
  /\ (exists o',
        deliver 0 (ReqTask 7 "worker-a") booted = (Ok tt, o')
        /\ workers o'
           = workers booted
             ++ [mkWorker "worker-a" true
                   [StartTask (vmlinux booted) (memory booted) 7]])
  /\ (exists o',
        deliver 0 (ReqSecondary 2 99) booted = (Ok tt, o')
        /\ workers o'
           = workers booted
             ++ [mkWorker "secondary" true
                   [StartSecondary (vmlinux booted) (memory booted) 2 99]]).
Proof.
  split; [reflexivity|]. split; [vm_compute; reflexivity|].
  split; [reflexivity|].
  apply (spawn_request_is_relayed_once string_of_list_byte 0 7 4 8 "worker-a"
           2 99 worker_a_host booted 0 boot_worker).
  - reflexivity.
  - vm_compute. reflexivity.
  - reflexivity.
Defined.

Lemma before_app (a b : action -> bool) (l l' : list action) :
  before a b l = true -> before a b l' = true -> before a b (l ++ l') = true.
Proof.
  intros Hl Hl'. induction l as [|x l IH]; simpl in *; [assumption|].
  destruct (a x); [reflexivity|]. destruct (b x); [discriminate|]. auto.
Qed.

Lemma spawned_listening (o : orchestrator) (name : string)
  (msg : start_message) :
  listening_everywhere o -> listening_everywhere (spawned o name msg).
Proof.
  intros [Hw Hh]. split.
  - intros w x. unfold spawned. simpl. intros Hx.
    destruct (Nat.lt_ge_cases w (List.length (workers o))) as [Hlt|Hge].
    + rewrite nth_error_app1 in Hx by assumption. eauto.
    + rewrite nth_error_app2 in Hx by assumption.
      destruct (w - List.length (workers o))%nat as [|k]; simpl in Hx.
      * inversion Hx. simpl. eauto.
      * destruct k; discriminate.
  - intros w. unfold spawned. simpl. rewrite <- !app_assoc.
    apply before_app; [apply Hh|]. simpl.
    destruct (Nat.eqb w (List.length (workers o))); reflexivity.
Qed.

Lemma deliver_listening_everywhere (src : nat) (ev : spawn_request)
  (o : orchestrator) :
  listening_everywhere o -> listening_everywhere (snd (deliver src ev o)).
Proof.
  intros Ho. unfold deliver, bind, get.
  destruct (nth_error (workers o) src) as [x|]; [|exact Ho].
  destruct (onmessage_set x); [|exact Ho].
  rewrite handler_spawns. destruct ev; apply spawned_listening; exact Ho.
Qed.

Lemma main_listening_everywhere (max_total_size : Z) (seed : list byte)
  (v : module_ref) (m : memory_ref) :
  listening_everywhere (snd (main max_total_size seed (start v m))).
Proof.
  unfold main. unfold bind at 1. unfold get. unfold bind at 1.
  destruct (DeviceTree.generateDeviceTree max_total_size (boot_tree seed))
    as [blob|e].
  - rewrite spawn_sequence. apply spawned_listening.
    split; [intros [|w] x Hx; discriminate | reflexivity].
  - split; [intros [|w] x Hx; discriminate | reflexivity].
Qed.

Lemma relay_listening_everywhere (msgs : list (nat * spawn_request))
  (o : orchestrator) :
  listening_everywhere o -> listening_everywhere (relay msgs o).
Proof.
  revert o. induction msgs as [|[src ev] msgs IH]; intros o Ho; [exact Ho|].
  apply IH. apply deliver_listening_everywhere. exact Ho.
Qed.

(** C10 -- in every state the orchestrator reaches from its start, whatever
    messages arrive and from whichever workers, every worker it has created
    (boot, task or secondary) has the handler installed, was posted its start
    message only after [listen], and a spawn request from it makes exactly
    one more worker. *)
Theorem every_worker_is_listened_to
  (max_total_size : Z) (seed : list byte) (v : module_ref) (m : memory_ref)
  (msgs : list (nat * spawn_request)) :
  let o := relay msgs (snd (main max_total_size seed (start v m))) in
  forall (w : nat) (x : worker),
    nth_error (workers o) w = Some x ->
    onmessage_set x = true
    /\ (exists msg, inbox x = [msg])
    /\ before (is_listening w) (is_posted w) (history o) = true
    /\ forall ev : spawn_request,
         exists name msg,
           deliver w ev o = (Ok tt, spawned o name msg)
           /\ workers (spawned o name msg)
              = workers o ++ [mkWorker name true [msg]].
Proof.
  intros o w x Hx.
  assert (Ho : listening_everywhere o)
    by (apply relay_listening_everywhere, main_listening_everywhere).
  destruct Ho as [Hw Hh]. destruct (Hw w x Hx) as [Hl Hin].
  repeat split; auto.
  intros ev. rewrite (deliver_listening _ _ _ _ Hx Hl), handler_spawns.
  destruct ev; do 2 eexists; split; reflexivity.
Qed.

Lemma every_worker_is_listened_to_witness :
  let o := relay [(0%nat, ReqSecondary 2 99); (1%nat, ReqTask 7 "worker-a")]
                 booted in
  nth_error (workers o) 1
  = Some (mkWorker "secondary" true [StartSecondary 1%nat 2%nat 2 99])
  /\ before (is_listening 1) (is_posted 1) (history o) = true
  /\ forall ev : spawn_request,
       exists name msg,
         deliver 1 ev o = (Ok tt, spawned o name msg)
         /\ workers (spawned o name msg)
            = workers o ++ [mkWorker name true [msg]].
Proof.
  intros o. split; [vm_compute; reflexivity|].
  apply (every_worker_is_listened_to 65536 (zeros 64) 1%nat 2%nat
           [(0%nat, ReqSecondary 2 99); (1%nat, ReqTask 7 "worker-a")] 1%nat
           (mkWorker "secondary" true [StartSecondary 1%nat 2%nat 2 99])).
  vm_compute. reflexivity.
Defined.

End SpawnRelay.

(** ** The device-tree blob: decoding what the encoder wrote *)

Module DeviceTreeFacts.
Import DeviceTree.

Lemma Z_of_byte_of_Z (z : Z) : Z_of_byte (byte_of_Z z) = z mod 256.
Proof.
  unfold Z_of_byte, byte_of_Z.
  assert (Hr : 0 <= z mod 256 < 256) by (apply Z.mod_pos_bound; lia).
  destruct (Byte.of_N (Z.to_N (z mod 256))) as [b|] eqn:E.
  - apply Byte.to_of_N in E. rewrite E. lia.
  - apply Byte.of_N_None_iff in E. lia.
Qed.

Lemma be32_length (v : Z) : List.length (be32 v) = 4%nat.
Proof. reflexivity. Qed.

Lemma read_u32_be32 (v : Z) (r : list byte) :
  0 <= v < 2 ^ 32 -> read_u32 (be32 v ++ r) = Some (v, r).
Proof.
  intros Hv. cbv [be32 read_u32 app].
  rewrite !Z_of_byte_of_Z. f_equal. f_equal.
  pose proof (Z.div_mod v 256 ltac:(lia)) as H0.
  pose proof (Z.div_mod (v / 256) 256 ltac:(lia)) as H1.
  pose proof (Z.div_mod (v / 256 / 256) 256 ltac:(lia)) as H2.
  assert (H3 : v / 256 / 256 / 256 < 256).
  { rewrite !Z.div_div by lia. apply Z.div_lt_upper_bound; lia. }
  assert (H4 : 0 <= v / 256 / 256 / 256).
  { rewrite !Z.div_div by lia. apply Z.div_pos; lia. }
  rewrite (Z.mod_small (v / 256 / 256 / 256)) by lia.
  lia.
Qed.

Lemma pad_len_lt (n : nat) : (pad_len n < 4)%nat.
Proof. unfold pad_len. apply Nat.mod_upper_bound. lia. Qed.

Lemma take_bytes_app (d r : list byte) :
  take_bytes (List.length d) (d ++ r) = Some (d, r).
Proof.
  unfold take_bytes. rewrite length_app.
  destruct (Nat.leb_spec (List.length d) (List.length d + List.length r));
    [|lia].
  rewrite firstn_app, Nat.sub_diag, firstn_all, skipn_app, Nat.sub_diag,
    skipn_all. simpl. rewrite app_nil_r. reflexivity.
Qed.

Lemma take_padding (n : nat) (r : list byte) :
  take_bytes (pad_len n) (padding n ++ r) = Some (padding n, r).
Proof.
  unfold padding. rewrite <- (repeat_length x00 (pad_len n)) at 1.
  apply take_bytes_app.
Qed.

Lemma no_nul_bytes (s : string) :
  no_nul s = true ->
  Forall (fun b => Byte.eqb b x00 = false) (list_byte_of_string s).
Proof.
  unfold no_nul. rewrite forallb_forall, Forall_forall.
  intros H b Hb. apply H in Hb. apply negb_true_iff. exact Hb.
Qed.

Lemma read_cstring_app (c r : list byte) :
  Forall (fun b => Byte.eqb b x00 = false) c ->
  read_cstring (c ++ x00 :: r) = Some (c, r).
Proof.
  induction 1 as [|b c Hb _ IH]; simpl; [reflexivity|].
  rewrite Hb, IH. reflexivity.
Qed.

Lemma read_cstring_cstring (s : string) (r : list byte) :
  no_nul s = true ->
  read_cstring (cstring s ++ r) = Some (list_byte_of_string s, r).
Proof.
  intros H. unfold cstring. rewrite <- app_assoc. simpl.
  apply read_cstring_app, no_nul_bytes, H.
Qed.

Lemma read_name_emit (s : string) (r : list byte) :
  no_nul s = true -> read_name (emit_name s ++ r) = Some (s, r).
Proof.
  intros H. unfold read_name, emit_name. rewrite <- app_assoc.
  rewrite read_cstring_cstring by assumption.
  replace (List.length (cstring s))
    with (S (List.length (list_byte_of_string s)))
    by (unfold cstring; rewrite length_app; simpl; lia).
  rewrite take_padding, string_of_list_byte_of_string. reflexivity.
Qed.

Lemma mem_string_In (s : string) (tab : list string) :
  mem_string s tab = true <-> In s tab.
Proof.
  unfold mem_string. rewrite existsb_exists. split.
  - intros (t & Ht & E). apply String.eqb_eq in E. subst. exact Ht.
  - intros H. exists s. split; [exact H|apply String.eqb_refl].
Qed.

Lemma intern_In (names tab : list string) (s : string) :
  In s (intern tab names) <-> In s tab \/ In s names.
Proof.
  revert tab. induction names as [|n names IH]; intros tab; simpl.
  - tauto.
  - rewrite IH. destruct (mem_string n tab) eqn:E.
    + apply mem_string_In in E. split; [tauto|].
      intros [H|[H|H]]; subst; auto.
    + rewrite in_app_iff. simpl. tauto.
Qed.

Lemma name_offset_split (tab : list string) (s : string) (off : Z) :
  In s tab ->
  exists pre post,
    strings_block tab = pre ++ cstring s ++ post
    /\ name_offset tab s off = off + Z.of_nat (List.length pre).
Proof.
  revert off. induction tab as [|t tab IH]; intros off Hin; [contradiction|].
  simpl. destruct (String.eqb s t) eqn:E.
  - apply String.eqb_eq in E. subst t.
    exists [], (strings_block tab). split; [reflexivity|simpl; lia].
  - destruct Hin as [->|Hin]; [rewrite String.eqb_refl in E; discriminate|].
    destruct (IH (off + Z.of_nat (List.length (cstring t))) Hin)
      as (pre & post & Hs & Ho).
    exists (cstring t ++ pre), post. split.
    + change (strings_block (t :: tab))
        with (cstring t ++ strings_block tab).
      rewrite Hs, <- app_assoc. reflexivity.
    + rewrite Ho, length_app. lia.
Qed.

(** A name that is in the table is found again at the offset the encoder
    wrote for it. *)
Lemma string_at_name_offset (tab : list string) (s : string) :
  In s tab -> no_nul s = true ->
  string_at (strings_block tab) (name_offset tab s 0) = Some s
  /\ 0 <= name_offset tab s 0 < Z.of_nat (List.length (strings_block tab)).
Proof.
  intros Hin Hs. destruct (name_offset_split tab s 0 Hin)
    as (pre & post & Hb & Ho).
  rewrite Ho, Hb. simpl. split.
  - unfold string_at.
    destruct (Z.of_nat (List.length pre) <? 0) eqn:E;
      [apply Z.ltb_lt in E; lia|].
    rewrite Nat2Z.id, skipn_app, Nat.sub_diag, skipn_all. simpl.
    rewrite read_cstring_cstring by assumption.
    rewrite string_of_list_byte_of_string. reflexivity.
  - rewrite !length_app. unfold cstring. rewrite length_app. simpl. lia.
Qed.

(** More fuel never changes what the decoder has found. *)
Lemma parse_items_more_fuel (strings : list byte) (f : nat) :
  forall (f' : nat) (s : list byte) r,
    (f <= f')%nat ->
    parse_items f strings s = Some r -> parse_items f' strings s = Some r.
Proof.
  induction f as [|f IH]; intros f' s r Hle H; [discriminate|].
  destruct f' as [|f']; [lia|].
  assert (Hf : (f <= f')%nat) by lia.
  simpl in *.
  destruct (read_u32 s) as [[tok s1]|]; [|discriminate].
  destruct (tok =? FDT_PROP).
  { destruct (read_u32 s1) as [[len s2]|]; [|discriminate].
    destruct (read_u32 s2) as [[nameoff s3]|]; [|discriminate].
    destruct (take_bytes (Z.to_nat len) s3) as [[data s4]|]; [|discriminate].
    destruct (take_bytes (pad_len (Z.to_nat len)) s4) as [[pad s5]|];
      [|discriminate].
    destruct (string_at strings nameoff) as [name|]; [|discriminate].
    destruct (parse_items f strings s5) as [x|] eqn:E; [|discriminate].
    rewrite (IH f' s5 x Hf E). exact H. }
  destruct (tok =? FDT_BEGIN_NODE).
  { destruct (read_name s1) as [[name s2]|]; [|discriminate].
    destruct (parse_items f strings s2) as [[[ps1 cs1] s3]|] eqn:E1;
      [|discriminate].
    rewrite (IH f' s2 _ Hf E1).
    destruct (parse_items f strings s3) as [x|] eqn:E2; [|discriminate].
    rewrite (IH f' s3 x Hf E2). exact H. }
  destruct (tok =? FDT_END_NODE); [exact H|].
  destruct (tok =? FDT_NOP); [|discriminate].
  apply (IH f' s1 r Hf H).
Qed.

Lemma parse_end_node (strings tail : list byte) (f : nat) :
  parse_items (S f) strings (be32 FDT_END_NODE ++ tail) = Some ([], [], tail).
Proof. reflexivity. Qed.

Lemma node_induction (P : node -> Prop) :
  (forall name props children,
     Forall P children -> P (Node name props children)) ->
  forall n, P n.
Proof.
  intros H. fix IH 1. intros [name props children]. apply H.
  induction children as [|c children IHc]; constructor;
    [apply IH|exact IHc].
Qed.

Section Decoding.

Variable tab : list string.
Hypothesis tab_small : Z.of_nat (List.length (strings_block tab)) < 2 ^ 32.

Lemma parse_prop (p : string * value) (f : nat) (tail : list byte)
  ps cs rest :
  prop_fits tab p ->
  parse_items f (strings_block tab) tail = Some (ps, cs, rest) ->
  parse_items (S f) (strings_block tab) (emit_prop tab p ++ tail)
  = Some (raw_prop p :: ps, cs, rest).
Proof.
  intros (Hin & Hnul & Hlen) Htail.
  destruct (string_at_name_offset tab (fst p) Hin Hnul) as [Hat Hoff].
  unfold emit_prop. rewrite <- !app_assoc. cbn [parse_items].
  rewrite read_u32_be32 by (unfold FDT_PROP; lia).
  change (FDT_PROP =? FDT_PROP) with true. cbv iota.
  rewrite read_u32_be32 by lia.
  rewrite read_u32_be32 by lia.
  rewrite Nat2Z.id, take_bytes_app, take_padding, Hat, Htail.
  reflexivity.
Qed.

Lemma parse_props (props : list (string * value)) (f : nat)
  (tail : list byte) ps cs rest :
  Forall (prop_fits tab) props ->
  parse_items f (strings_block tab) tail = Some (ps, cs, rest) ->
  parse_items (List.length props + f) (strings_block tab)
              (flat_map (emit_prop tab) props ++ tail)
  = Some (map raw_prop props ++ ps, cs, rest).
Proof.
  intros Hfit Htail. induction Hfit as [|p props Hp _ IH]; [exact Htail|].
  change (flat_map (emit_prop tab) (p :: props))
    with (emit_prop tab p ++ flat_map (emit_prop tab) props).
  change (List.length (p :: props) + f)%nat
    with (S (List.length props + f)).
  rewrite <- app_assoc.
  apply (parse_prop p _ _ _ _ _ Hp IH).
Qed.

Lemma parse_children (children : list node) (f : nat) (tail : list byte)
  ps cs rest :
  Forall (decodes tab) children ->
  parse_items f (strings_block tab) tail = Some (ps, cs, rest) ->
  parse_items (list_sum (map node_fuel children) + f) (strings_block tab)
              (flat_map (emit_node tab) children ++ tail)
  = Some (ps, map raw_of children ++ cs, rest).
Proof.
  intros Hdec Htail. induction Hdec as [|c children Hc _ IH]; [exact Htail|].
  change (flat_map (emit_node tab) (c :: children))
    with (emit_node tab c ++ flat_map (emit_node tab) children).
  change (list_sum (map node_fuel (c :: children)))
    with (node_fuel c + list_sum (map node_fuel children))%nat.
  change (map raw_of (c :: children) ++ cs)
    with (raw_of c :: map raw_of children ++ cs).
  rewrite <- app_assoc, <- Nat.add_assoc.
  apply Hc. exact IH.
Qed.

(** The items of a node, up to and including its end-node token. *)
Lemma parse_content (props : list (string * value)) (children : list node)
  (f : nat) (tail : list byte) :
  Forall (prop_fits tab) props -> Forall (decodes tab) children ->
  parse_items (List.length props
               + (list_sum (map node_fuel children) + S f))
              (strings_block tab)
              (flat_map (emit_prop tab) props
               ++ flat_map (emit_node tab) children
               ++ be32 FDT_END_NODE ++ tail)
  = Some (map raw_prop props, map raw_of children, tail).
Proof.
  intros Hp Hc.
  rewrite <- (app_nil_r (map raw_prop props)).
  rewrite <- (app_nil_r (map raw_of children)).
  apply parse_props; [exact Hp|].
  apply parse_children; [exact Hc|].
  apply parse_end_node.
Qed.

Lemma decodes_node (name : string) (props : list (string * value))
  (children : list node) :
  no_nul name = true -> Forall (prop_fits tab) props -> Forall (decodes tab) children ->
  decodes tab (Node name props children).
Proof.
  intros Hname Hp Hc f tail ps cs rest Htail.
  cbn [emit_node node_fuel raw_of]. rewrite <- !app_assoc.
  cbn [Nat.add parse_items].
  rewrite read_u32_be32 by (unfold FDT_BEGIN_NODE; lia).
  change (FDT_BEGIN_NODE =? FDT_PROP) with false.
  change (FDT_BEGIN_NODE =? FDT_BEGIN_NODE) with true. cbv iota.
  rewrite read_name_emit by assumption.
  assert (Hfuel :
    (List.length props + (list_sum (map node_fuel children) + 1) + f
     = List.length props + (list_sum (map node_fuel children) + S f))%nat)
    by lia.
  rewrite Hfuel, parse_content by assumption.
  rewrite (parse_items_more_fuel _ f _ tail (ps, cs, rest)); [|lia|exact Htail].
  reflexivity.
Qed.

End Decoding.

Lemma flat_map_length_le {A B} (f : A -> list B) (l : list A) (x : A) :
  In x l -> (List.length (f x) <= List.length (flat_map f l))%nat.
Proof.
  induction l as [|y l IH]; intros Hin; [contradiction|].
  simpl. rewrite length_app. destruct Hin as [->|Hin]; [lia|].
  specialize (IH Hin). lia.
Qed.

Lemma emit_node_length (tab : list string) (name : string)
  (props : list (string * value)) (children : list node) :
  List.length (emit_node tab (Node name props children))
  = (4 + List.length (emit_name name)
     + List.length (flat_map (emit_prop tab) props)
     + List.length (flat_map (emit_node tab) children) + 4)%nat.
Proof. cbn [emit_node]. rewrite !length_app, !be32_length. lia. Qed.

Lemma emit_prop_length (tab : list string) (p : string * value) :
  (12 + List.length (payload (snd p)) <= List.length (emit_prop tab p))%nat.
Proof. unfold emit_prop. rewrite !length_app, !be32_length. lia. Qed.

Lemma names_ok_node (name : string) (props : list (string * value))
  (children : list node) :
  names_ok (Node name props children) = true ->
  no_nul name = true
  /\ (forall p, In p props -> no_nul (fst p) = true /\ text_ok (snd p) = true)
  /\ (forall c, In c children -> names_ok c = true).
Proof.
  cbn [names_ok]. rewrite !andb_true_iff, !forallb_forall.
  intros [[Hn Hp] Hc]. repeat split; auto.
  - apply Hp in H. apply andb_true_iff in H. tauto.
  - apply Hp in H. apply andb_true_iff in H. tauto.
Qed.

(** Every node of a tree that fits 32-bit sizes decodes, given a table that
    holds its property names. *)
Lemma decodes_tree (tab : list string) :
  Z.of_nat (List.length (strings_block tab)) < 2 ^ 32 ->
  forall n,
    names_ok n = true ->
    incl (prop_names n) tab ->
    Z.of_nat (List.length (emit_node tab n)) < 2 ^ 32 ->
    decodes tab n.
Proof.
  intros Htab n. induction n as [name props children IH] using node_induction.
  intros Hok Hincl Hlen.
  apply names_ok_node in Hok. destruct Hok as (Hname & Hprops & Hchildren).
  rewrite emit_node_length in Hlen. cbn [prop_names] in Hincl.
  apply decodes_node; [exact Htab|exact Hname| |].
  - apply Forall_forall. intros p Hp. repeat split.
    + apply Hincl, in_or_app. left. apply in_map. exact Hp.
    + apply (Hprops p Hp).
    + pose proof (flat_map_length_le (emit_prop tab) props p Hp).
      pose proof (emit_prop_length tab p). lia.
  - rewrite Forall_forall in IH. apply Forall_forall. intros c Hc.
    apply (IH c Hc).
    + apply (Hchildren c Hc).
    + intros s Hs. apply Hincl, in_or_app. right.
      apply in_flat_map. exists c. split; assumption.
    + pose proof (flat_map_length_le (emit_node tab) children c Hc). lia.
Qed.

Lemma node_fuel_le_length (tab : list string) (n : node) :
  (node_fuel n <= List.length (emit_node tab n))%nat.
Proof.
  induction n as [name props children IH] using node_induction.
  rewrite emit_node_length. cbn [node_fuel].
  assert (Hp : (List.length props
                <= List.length (flat_map (emit_prop tab) props))%nat).
  { clear. induction props as [|p props IHp]; [simpl; lia|].
    change (flat_map (emit_prop tab) (p :: props))
      with (emit_prop tab p ++ flat_map (emit_prop tab) props).
    rewrite length_app. pose proof (emit_prop_length tab p). simpl. lia. }
  assert (Hc : (list_sum (map node_fuel children)
                <= List.length (flat_map (emit_node tab) children))%nat).
  { induction IH as [|c children Hc _ IHc]; [simpl; lia|].
    change (flat_map (emit_node tab) (c :: children))
      with (emit_node tab c ++ flat_map (emit_node tab) children).
    change (list_sum (map node_fuel (c :: children)))
      with (node_fuel c + list_sum (map node_fuel children))%nat.
    rewrite length_app. lia. }
  lia.
Qed.

Lemma parse_structure_block (tab : list string) (root : node) :
  Z.of_nat (List.length (strings_block tab)) < 2 ^ 32 ->
  names_ok root = true ->
  incl (prop_names root) tab ->
  Z.of_nat (List.length (emit_node tab root)) < 2 ^ 32 ->
  parse_structure (strings_block tab) (structure_block tab root)
  = Some (raw_of root).
Proof.
  intros Htab Hok Hincl Hlen.
  pose proof (node_fuel_le_length tab root) as Hfuel.
  destruct root as [name props children].
  assert (Hfit : Forall (prop_fits tab) props
                 /\ Forall (decodes tab) children).
  { pose proof Hok as Hok'. apply names_ok_node in Hok'.
    destruct Hok' as (_ & Hprops & Hchildren).
    pose proof Hlen as Hlen'. rewrite emit_node_length in Hlen'.
    cbn [prop_names] in Hincl. split; apply Forall_forall.
    - intros p Hp. repeat split.
      + apply Hincl, in_or_app. left. apply in_map. exact Hp.
      + apply (Hprops p Hp).
      + pose proof (flat_map_length_le (emit_prop tab) props p Hp).
        pose proof (emit_prop_length tab p). lia.
    - intros c Hc. apply decodes_tree; [exact Htab| | |].
      + apply (Hchildren c Hc).
      + intros s Hs. apply Hincl, in_or_app. right.
        apply in_flat_map. exists c. split; assumption.
      + pose proof (flat_map_length_le (emit_node tab) children c Hc). lia. }
  destruct Hfit as [Hp Hc].
  apply names_ok_node in Hok. destruct Hok as (Hname & _ & _).
  unfold parse_structure, structure_block.
  set (fuel := S (List.length (emit_node tab (Node name props children)
                               ++ be32 FDT_END))).
  cbn [emit_node]. rewrite <- !app_assoc.
  rewrite read_u32_be32 by (unfold FDT_BEGIN_NODE; lia).
  change (FDT_BEGIN_NODE =? FDT_BEGIN_NODE) with true. cbv iota.
  rewrite read_name_emit by assumption.
  pose proof (parse_content tab Htab props children 0 (be32 FDT_END) Hp Hc)
    as Hparse.
  apply (parse_items_more_fuel _ _ fuel) in Hparse;
    [|unfold fuel; rewrite length_app; cbn [node_fuel] in Hfuel; lia].
  rewrite Hparse.
  rewrite <- (app_nil_r (be32 FDT_END)).
  rewrite read_u32_be32 by (unfold FDT_END; lia). reflexivity.
Qed.

Lemma skipn_exact {A} (pre l : list A) (n : nat) :
  List.length pre = n -> skipn n (pre ++ l) = l.
Proof.
  intros <-. rewrite skipn_app, Nat.sub_diag, skipn_all. reflexivity.
Qed.

Lemma firstn_exact {A} (l r : list A) (n : nat) :
  List.length l = n -> firstn n (l ++ r) = l.
Proof.
  intros <-. rewrite firstn_app, Nat.sub_diag, firstn_all. simpl.
  apply app_nil_r.
Qed.

Lemma header_length (a b c d e f : Z) :
  List.length (header a b c d e f) = 40%nat.
Proof. reflexivity. Qed.

Lemma read_header (a b c d e f : Z) (rest : list byte) :
  0 <= a < 2 ^ 32 -> 0 <= b < 2 ^ 32 -> 0 <= c < 2 ^ 32 ->
  0 <= d < 2 ^ 32 -> 0 <= e < 2 ^ 32 -> 0 <= f < 2 ^ 32 ->
  read_u32s 10 (header a b c d e f ++ rest)
  = Some [FDT_MAGIC; a; b; c; d; FDT_VERSION; FDT_LAST_COMP_VERSION; 0; e; f].
Proof.
  intros Ha Hb Hc Hd He Hf. unfold header. rewrite <- !app_assoc.
  cbn [read_u32s].
  rewrite read_u32_be32 by (unfold FDT_MAGIC; lia).
  rewrite read_u32_be32 by assumption.
  rewrite read_u32_be32 by assumption.
  rewrite read_u32_be32 by assumption.
  rewrite read_u32_be32 by assumption.
  rewrite read_u32_be32 by (unfold FDT_VERSION; lia).
  rewrite read_u32_be32 by (unfold FDT_LAST_COMP_VERSION; lia).
  rewrite read_u32_be32 by lia.
  rewrite read_u32_be32 by assumption.
  rewrite read_u32_be32 by assumption.
  reflexivity.
Qed.

(** The decoder finds the two blocks where the header says they are. *)
Lemma fdt_parse_blob_of (root : node) :
  Z.of_nat (List.length (blob_of root)) < 2 ^ 32 ->
  fdt_parse (blob_of root)
  = parse_structure
      (strings_block (intern [] (prop_names root)))
      (structure_block (intern [] (prop_names root)) root).
Proof.
  unfold blob_of.
  set (tab := intern [] (prop_names root)).
  set (struct := structure_block tab root).
  set (strings := strings_block tab).
  change (List.length reservation_block) with 16%nat.
  unfold HEADER_SIZE.
  set (blob := header _ _ _ _ _ _ ++ reservation_block ++ struct ++ strings).
  intros Hsmall.
  assert (Hlen : Z.of_nat (List.length blob)
                 = 40 + Z.of_nat 16 + Z.of_nat (List.length struct)
                   + Z.of_nat (List.length strings)).
  { unfold blob. rewrite !length_app, header_length.
    change (List.length reservation_block) with 16%nat. lia. }
  assert (Hhdr : read_u32s 10 blob
                 = Some [FDT_MAGIC;
                         40 + Z.of_nat 16 + Z.of_nat (List.length struct)
                         + Z.of_nat (List.length strings);
                         40 + Z.of_nat 16;
                         40 + Z.of_nat 16 + Z.of_nat (List.length struct);
                         40; FDT_VERSION; FDT_LAST_COMP_VERSION; 0;
                         Z.of_nat (List.length strings);
                         Z.of_nat (List.length struct)])
    by (apply read_header; lia).
  unfold fdt_parse. rewrite Hhdr.
  match goal with
  | |- (if ?c then _ else _) = _ => assert (Hcond : c = true)
  end.
  { rewrite !andb_true_iff, !Z.eqb_eq, !Z.leb_le.
    unfold FDT_LAST_COMP_VERSION, FDT_VERSION. repeat split; lia. }
  rewrite Hcond.
  f_equal.
  - unfold blob.
    replace (header _ _ _ _ _ _ ++ reservation_block ++ struct ++ strings)
      with ((header
               (40 + Z.of_nat 16 + Z.of_nat (List.length struct)
                + Z.of_nat (List.length strings))
               (40 + Z.of_nat 16)
               (40 + Z.of_nat 16 + Z.of_nat (List.length struct)) 40
               (Z.of_nat (List.length strings))
               (Z.of_nat (List.length struct))
             ++ reservation_block ++ struct) ++ strings)
      by (rewrite <- !app_assoc; reflexivity).
    rewrite skipn_exact.
    + rewrite Nat2Z.id. apply firstn_all.
    + rewrite !length_app, header_length.
      change (List.length reservation_block) with 16%nat. lia.
  - unfold blob.
    replace (header _ _ _ _ _ _ ++ reservation_block ++ struct ++ strings)
      with ((header
               (40 + Z.of_nat 16 + Z.of_nat (List.length struct)
                + Z.of_nat (List.length strings))
               (40 + Z.of_nat 16)
               (40 + Z.of_nat 16 + Z.of_nat (List.length struct)) 40
               (Z.of_nat (List.length strings))
               (Z.of_nat (List.length struct))
             ++ reservation_block) ++ struct ++ strings)
      by (rewrite <- !app_assoc; reflexivity).
    rewrite skipn_exact.
    + apply firstn_exact. symmetry. apply Nat2Z.id.
    + rewrite !length_app, header_length.
      change (List.length reservation_block) with 16%nat. lia.
Qed.

Lemma blob_of_length (root : node) :
  List.length (blob_of root)
  = (56 + List.length (structure_block (intern [] (prop_names root)) root)
     + List.length (strings_block (intern [] (prop_names root))))%nat.
Proof.
  unfold blob_of. rewrite !length_app, header_length.
  change (List.length reservation_block) with 16%nat. lia.
Qed.

Lemma prop_names_no_nul (n : node) (s : string) :
  names_ok n = true -> In s (prop_names n) -> no_nul s = true.
Proof.
  induction n as [name props children IH] using node_induction.
  intros Hok Hin. apply names_ok_node in Hok.
  destruct Hok as (_ & Hprops & Hchildren).
  cbn [prop_names] in Hin. apply in_app_or in Hin. destruct Hin as [Hin|Hin].
  - apply in_map_iff in Hin. destruct Hin as (p & <- & Hp).
    apply (Hprops p Hp).
  - apply in_flat_map in Hin. destruct Hin as (c & Hc & Hs).
    rewrite Forall_forall in IH. apply (IH c Hc); [apply (Hchildren c Hc)|].
    exact Hs.
Qed.

(** Decoding the blob of a tree gives the tree back, each value as the bytes
    of its token. *)
Lemma fdt_parse_encoded (root : node) :
  names_ok root = true ->
  Z.of_nat (List.length (blob_of root)) < 2 ^ 32 ->
  fdt_parse (blob_of root) = Some (raw_of root).
Proof.
  intros Hok Hsmall. rewrite fdt_parse_blob_of by assumption.
  rewrite blob_of_length in Hsmall. unfold structure_block in Hsmall.
  rewrite length_app in Hsmall.
  apply parse_structure_block.
  - lia.
  - exact Hok.
  - intros s Hs. apply intern_In. right. exact Hs.
  - lia.
Qed.

Lemma read_u32s_cells (cs : list Z) :
  forallb cell_ok cs = true ->
  read_u32s (List.length cs) (flat_map be32 cs) = Some cs.
Proof.
  induction cs as [|c cs IH]; intros Hok; [reflexivity|].
  cbn [forallb] in Hok. apply andb_true_iff in Hok. destruct Hok as [Hc Hcs].
  unfold cell_ok in Hc. apply andb_true_iff in Hc.
  rewrite Z.leb_le, Z.ltb_lt in Hc.
  change (flat_map be32 (c :: cs)) with (be32 c ++ flat_map be32 cs).
  cbn [List.length read_u32s].
  rewrite read_u32_be32 by lia. rewrite (IH Hcs). reflexivity.
Qed.

Lemma cells_length (cs : list Z) :
  List.length (flat_map be32 cs) = (List.length cs * 4)%nat.
Proof.
  induction cs as [|c cs IH]; [reflexivity|].
  change (flat_map be32 (c :: cs)) with (be32 c ++ flat_map be32 cs).
  rewrite length_app, IH, be32_length. simpl. lia.
Qed.

(** A payload read at the kind of the value it came from is that value. *)
Lemma reread_payload (v : value) :
  text_ok v = true -> value_ok v = true -> reread v (payload v) = Some v.
Proof.
  destruct v as [b|s|cs]; intros Ht Hv; cbn [reread payload].
  - reflexivity.
  - rewrite <- (app_nil_r (cstring s)).
    rewrite read_cstring_cstring by exact Ht.
    rewrite string_of_list_byte_of_string. reflexivity.
  - unfold read_be32s. rewrite cells_length.
    rewrite Nat.Div0.mod_mul, Nat.div_mul by lia. cbn [Nat.eqb].
    rewrite read_u32s_cells by exact Hv. reflexivity.
Qed.

Lemma typed_as_raw_of (n : node) :
  names_ok n = true -> cells_ok n = true -> typed_as n (raw_of n) = Some n.
Proof.
  induction n as [name props children IH] using node_induction.
  intros Hok Hcells. apply names_ok_node in Hok.
  destruct Hok as (_ & Hprops & Hchildren).
  cbn [cells_ok] in Hcells. apply andb_true_iff in Hcells.
  destruct Hcells as [Hvals Hcs]. rewrite forallb_forall in Hvals, Hcs.
  cbn [typed_as raw_of].
  match goal with
  | |- match ?a with Some _ => match ?b with Some _ => _ | None => _ end
                   | None => _ end = _ =>
      assert (Ha : a = Some props); [|assert (Hb : b = Some children)]
  end.
  - clear IH Hchildren Hcs.
    induction props as [|p props IHp]; [reflexivity|].
    cbn [map]. cbn [fst snd]. 
    rewrite reread_payload;
      [|apply (Hprops p), in_eq|apply (Hvals p), in_eq].
    rewrite IHp.
    + destruct p; reflexivity.
    + intros q Hq. apply Hprops, in_cons, Hq.
    + intros q Hq. apply Hvals, in_cons, Hq.
  - clear Ha Hprops Hvals.
    induction IH as [|c children Hc _ IHc]; [reflexivity|].
    cbn [map]. rewrite Hc; [|apply Hchildren, in_eq|apply Hcs, in_eq].
    rewrite IHc.
    + reflexivity.
    + intros q Hq. apply Hchildren, in_cons, Hq.
    + intros q Hq. apply Hcs, in_cons, Hq.
  - rewrite Ha, Hb. reflexivity.
Qed.

Lemma generateDeviceTree_valid (max_total_size : Z) (root : node) :
  valid_tree max_total_size root ->
  generateDeviceTree max_total_size root = Ok (blob_of root).
Proof.
  intros (_ & Hcells & Hsize). unfold generateDeviceTree.
  rewrite Hcells. cbn [negb].
  destruct (max_total_size <? Z.of_nat (List.length (blob_of root))) eqn:E;
    [apply Z.ltb_lt in E; lia|reflexivity].
Qed.

(** C2 -- every tree the encoder accepts (names and strings without zero
    bytes, cells within 32 bits, total size within the maximum, itself below
    2^32) is encoded, and the decoder reads the blob back to the same nodes
    and properties in the same order, each value as the bytes of its token;
    read at the kind of the original value (raw bytes, null-terminated
    string, big-endian cells) those bytes are the original value. *)
Theorem encode_then_parse (max_total_size : Z) (root : node) :
  max_total_size < 2 ^ 32 ->
  valid_tree max_total_size root ->
  exists (blob : list byte) (decoded : raw_node),
    generateDeviceTree max_total_size root = Ok blob
    /\ fdt_parse blob = Some decoded
    /\ decoded = raw_of root
    /\ typed_as root decoded = Some root.
Proof.
  intros Hmax Hvalid. exists (blob_of root), (raw_of root).
  pose proof (generateDeviceTree_valid _ _ Hvalid) as Hgen.
  destruct Hvalid as (Hnames & Hcells & Hsize).
  repeat split.
  - exact Hgen.
  - apply fdt_parse_encoded; [exact Hnames|lia].
  - apply typed_as_raw_of; assumption.
Qed.

Lemma encode_then_parse_witness :
  65536 < 2 ^ 32
  /\ valid_tree 65536 (Main.boot_tree (Samples.zeros 64))
  /\ exists (blob : list byte) (decoded : raw_node),
       generateDeviceTree 65536 (Main.boot_tree (Samples.zeros 64)) = Ok blob
       /\ fdt_parse blob = Some decoded
       /\ decoded = raw_of (Main.boot_tree (Samples.zeros 64))
       /\ typed_as (Main.boot_tree (Samples.zeros 64)) decoded
          = Some (Main.boot_tree (Samples.zeros 64)).
Proof.
  assert (Hvalid : valid_tree 65536 (Main.boot_tree (Samples.zeros 64))).
  { split; [reflexivity|]. split; [reflexivity|].
    apply Z.leb_le. vm_compute. reflexivity. }
  split; [lia|]. split; [exact Hvalid|].
  apply (encode_then_parse 65536 (Main.boot_tree (Samples.zeros 64)));
    [lia|exact Hvalid].
Defined.

Lemma list_of_length_64 (seed : list byte) :
  List.length seed = 64%nat ->
  exists b0 b1 b2 b3 b4 b5 b6 b7 b8 b9 b10 b11 b12 b13 b14 b15
         b16 b17 b18 b19 b20 b21 b22 b23 b24 b25 b26 b27 b28 b29 b30 b31
         b32 b33 b34 b35 b36 b37 b38 b39 b40 b41 b42 b43 b44 b45 b46 b47
         b48 b49 b50 b51 b52 b53 b54 b55 b56 b57 b58 b59 b60 b61 b62 b63,
    seed = [b0; b1; b2; b3; b4; b5; b6; b7; b8; b9; b10; b11; b12; b13; b14;
            b15; b16; b17; b18; b19; b20; b21; b22; b23; b24; b25; b26; b27;
            b28; b29; b30; b31; b32; b33; b34; b35; b36; b37; b38; b39; b40;
            b41; b42; b43; b44; b45; b46; b47; b48; b49; b50; b51; b52; b53;
            b54; b55; b56; b57; b58; b59; b60; b61; b62; b63].
Proof.
  intros H.
  do 64 (destruct seed as [|? seed]; [discriminate H|];
         apply Nat.succ_inj in H).
  destruct seed; [|discriminate H].
  repeat eexists.
Qed.

(** C8 -- the tree [main.ts] passes to the encoder, for any 64 random bytes
    [seed], is encoded (the blob has 302 bytes), is what the boot worker is
    posted, and decodes to exactly: the root with the nodes chosen (rng-seed =
    the 64 bytes, bootargs = the command line as a string), aliases (empty)
    and memory (device_type = "memory", reg = the cells 0 and pages * 64 KiB),
    and nothing else. *)
Theorem boot_device_tree_content
  (max_total_size : Z) (seed : list byte) (v : module_ref) (m : memory_ref) :
  302 <= max_total_size ->
  List.length seed = 64%nat ->
  exists blob : list byte,
    generateDeviceTree max_total_size (Main.boot_tree seed) = Ok blob
    /\ Main.workers (snd (Main.main max_total_size seed (Main.start v m)))
       = [Main.mkWorker "boot" true [StartBoot v m blob]]
    /\ fdt_parse blob
       = Some
           (RawNode "" []
              [ RawNode "chosen"
                  [ ("rng-seed"%string, seed);
                    ("bootargs"%string, cstring Main.cmdline) ] [];
                RawNode "aliases" [] [];
                RawNode "memory"
                  [ ("device_type"%string, cstring "memory");
                    ("reg"%string,
                     be32 0 ++ be32 (Main.memoryPages * (64 * 1024))) ] [] ]).
Proof.
  intros Hmax Hseed.
  assert (Hlen : Z.of_nat (List.length (blob_of (Main.boot_tree seed))) = 302).
  { destruct (list_of_length_64 seed Hseed) as
      (b0 & b1 & b2 & b3 & b4 & b5 & b6 & b7 & b8 & b9 & b10 & b11 & b12
       & b13 & b14 & b15 & b16 & b17 & b18 & b19 & b20 & b21 & b22 & b23
       & b24 & b25 & b26 & b27 & b28 & b29 & b30 & b31 & b32 & b33 & b34
       & b35 & b36 & b37 & b38 & b39 & b40 & b41 & b42 & b43 & b44 & b45
       & b46 & b47 & b48 & b49 & b50 & b51 & b52 & b53 & b54 & b55 & b56
       & b57 & b58 & b59 & b60 & b61 & b62 & b63 & ->).
    reflexivity. }
  assert (Hgen : generateDeviceTree max_total_size (Main.boot_tree seed)
                 = Ok (blob_of (Main.boot_tree seed))).
  { apply generateDeviceTree_valid. split; [reflexivity|].
    split; [reflexivity|]. lia. }
  exists (blob_of (Main.boot_tree seed)). split; [exact Hgen|]. split.
  - unfold Main.main. unfold bind at 1. unfold get. unfold bind at 1.
    rewrite Hgen. reflexivity.
  - rewrite fdt_parse_encoded; [reflexivity|reflexivity|lia].
Qed.

Lemma boot_device_tree_content_witness :
  302 <= 65536
  /\ List.length (Samples.zeros 64) = 64%nat
  /\ exists blob : list byte,
       generateDeviceTree 65536 (Main.boot_tree (Samples.zeros 64)) = Ok blob
       /\ Main.workers
            (snd (Main.main 65536 (Samples.zeros 64)
                    (Main.start 1%nat 2%nat)))
          = [Main.mkWorker "boot" true [StartBoot 1%nat 2%nat blob]]
       /\ fdt_parse blob
          = Some
              (RawNode "" []
                 [ RawNode "chosen"
                     [ ("rng-seed"%string, Samples.zeros 64);
                       ("bootargs"%string, cstring Main.cmdline) ] [];
                   RawNode "aliases" [] [];
                   RawNode "memory"
                     [ ("device_type"%string, cstring "memory");
                       ("reg"%string,
                        be32 0 ++ be32 (Main.memoryPages * (64 * 1024))) ]
                     [] ]).
Proof.
  split; [lia|]. split; [reflexivity|].
  apply (boot_device_tree_content 65536 (Samples.zeros 64) 1%nat 2%nat).
  - lia.
  - reflexivity.
Defined.

End DeviceTreeFacts.

(** ** The clock: rounding is monotone *)

Module DoubleFacts.
Import Double.

Lemma pow2_pos (a : Z) : 0 <= a -> 0 < 2 ^ a.
Proof. intros H. apply Z.pow_pos_nonneg; lia. Qed.

Lemma pow2_add (a b : Z) : 0 <= a -> 0 <= b -> 2 ^ (a + b) = 2 ^ a * 2 ^ b.
Proof. intros Ha Hb. apply Z.pow_add_r; assumption. Qed.

Lemma grid_regrid (E E' m e : Z) :
  E' <= E -> E <= e -> grid E' m e = grid E m e * 2 ^ (E - E').
Proof.
  intros H1 H2. unfold grid.
  replace (e - E') with ((e - E) + (E - E')) by lia.
  rewrite pow2_add by lia. ring.
Qed.

Lemma le_grid (E m1 e1 m2 e2 : Z) :
  E <= e1 -> E <= e2 ->
  (le (Fin m1 e1) (Fin m2 e2) <-> grid E m1 e1 <= grid E m2 e2).
Proof.
  intros H1 H2. unfold le. fold (grid (Z.min e1 e2) m1 e1).
  fold (grid (Z.min e1 e2) m2 e2).
  rewrite (grid_regrid (Z.min e1 e2) E m1 e1) by lia.
  rewrite (grid_regrid (Z.min e1 e2) E m2 e2) by lia.
  pose proof (pow2_pos (Z.min e1 e2 - E) ltac:(lia)).
  split; intros H0; nia.
Qed.

(** *** Division with rounding to nearest, ties to even *)

Lemma rne_div_exact (a k : Z) : 0 <= k -> rne_div (a * 2 ^ k) k = a.
Proof.
  intros Hk. unfold rne_div. destruct (k <=? 0) eqn:E.
  - apply Z.leb_le in E. replace k with 0 by lia. simpl. lia.
  - apply Z.leb_gt in E.
    pose proof (pow2_pos k ltac:(lia)) as Hp.
    pose proof (pow2_pos (k - 1) ltac:(lia)) as Hh.
    rewrite Z.div_mul by lia. rewrite Z.mod_mul by lia.
    destruct (0 <? 2 ^ (k - 1)) eqn:F; [reflexivity|].
    apply Z.ltb_ge in F. lia.
Qed.

Lemma rne_div_scale (m k j : Z) :
  0 < k -> 0 <= j -> rne_div (m * 2 ^ j) (k + j) = rne_div m k.
Proof.
  intros Hk Hj. unfold rne_div.
  destruct (k + j <=? 0) eqn:E; [apply Z.leb_le in E; lia|].
  destruct (k <=? 0) eqn:F; [apply Z.leb_le in F; lia|].
  pose proof (pow2_pos k ltac:(lia)) as Hp.
  pose proof (pow2_pos j ltac:(lia)) as Hq.
  rewrite (pow2_add k j) by lia.
  replace (k + j - 1) with ((k - 1) + j) by lia.
  rewrite (pow2_add (k - 1) j) by lia.
  rewrite Z.div_mul_cancel_r by lia.
  rewrite Z.mul_mod_distr_r by lia.
  set (r := m mod 2 ^ k). set (h := 2 ^ (k - 1)).
  replace (r * 2 ^ j <? h * 2 ^ j) with (r <? h).
  2:{ destruct (r <? h) eqn:A; symmetry.
      - apply Z.ltb_lt in A. apply Z.ltb_lt. nia.
      - apply Z.ltb_ge in A. apply Z.ltb_ge. nia. }
  replace (h * 2 ^ j <? r * 2 ^ j) with (h <? r).
  2:{ destruct (h <? r) eqn:A; symmetry.
      - apply Z.ltb_lt in A. apply Z.ltb_lt. nia.
      - apply Z.ltb_ge in A. apply Z.ltb_ge. nia. }
  reflexivity.
Qed.

(** The rounded quotient is within a half of the exact one. *)
Lemma rne_div_bounds (m k : Z) :
  0 < k ->
  2 * m - 2 ^ k <= 2 * rne_div m k * 2 ^ k <= 2 * m + 2 ^ k.
Proof.
  intros Hk. unfold rne_div.
  destruct (k <=? 0) eqn:E; [apply Z.leb_le in E; lia|].
  pose proof (pow2_pos k ltac:(lia)) as Hp.
  pose proof (Z.div_mod m (2 ^ k) ltac:(lia)) as Hdm.
  pose proof (Z.mod_pos_bound m (2 ^ k) ltac:(lia)) as Hr.
  assert (Hh : 2 ^ k = 2 * 2 ^ (k - 1)).
  { replace k with (1 + (k - 1)) at 1 by lia. rewrite pow2_add by lia.
    reflexivity. }
  set (q := m / 2 ^ k) in *. set (r := m mod 2 ^ k) in *.
  set (h := 2 ^ (k - 1)) in *.
  destruct (r <? h) eqn:A; [apply Z.ltb_lt in A; nia|apply Z.ltb_ge in A].
  destruct (h <? r) eqn:B; [apply Z.ltb_lt in B; nia|apply Z.ltb_ge in B].
  destruct (Z.even q); nia.
Qed.

Lemma rne_div_mono (m1 m2 k : Z) :
  m1 <= m2 -> rne_div m1 k <= rne_div m2 k.
Proof.
  intros Hm. unfold rne_div. destruct (k <=? 0) eqn:E.
  - apply Z.leb_le in E. pose proof (pow2_pos (- k) ltac:(lia)). nia.
  - apply Z.leb_gt in E.
    pose proof (pow2_pos k ltac:(lia)) as Hp.
    pose proof (Z.div_mod m1 (2 ^ k) ltac:(lia)) as Hdm1.
    pose proof (Z.div_mod m2 (2 ^ k) ltac:(lia)) as Hdm2.
    pose proof (Z.mod_pos_bound m1 (2 ^ k) ltac:(lia)) as Hr1.
    pose proof (Z.mod_pos_bound m2 (2 ^ k) ltac:(lia)) as Hr2.
    pose proof (Z.div_le_mono m1 m2 (2 ^ k) ltac:(lia) Hm) as Hq.
    set (q1 := m1 / 2 ^ k) in *. set (r1 := m1 mod 2 ^ k) in *.
    set (q2 := m2 / 2 ^ k) in *. set (r2 := m2 mod 2 ^ k) in *.
    set (h := 2 ^ (k - 1)) in *.
    assert (Hcase : q1 = q2 \/ q1 + 1 <= q2) by lia.
    destruct Hcase as [Heq|Hlt].
    + assert (Hr : r1 <= r2) by nia. rewrite <- Heq.
      destruct (r1 <? h) eqn:A1; destruct (r2 <? h) eqn:A2;
        destruct (h <? r1) eqn:B1; destruct (h <? r2) eqn:B2;
        destruct (Z.even q1);
        try apply Z.ltb_lt in A1; try apply Z.ltb_ge in A1;
        try apply Z.ltb_lt in A2; try apply Z.ltb_ge in A2;
        try apply Z.ltb_lt in B1; try apply Z.ltb_ge in B1;
        try apply Z.ltb_lt in B2; try apply Z.ltb_ge in B2; lia.
    + destruct (r1 <? h); destruct (r2 <? h); destruct (h <? r1);
        destruct (h <? r2); destruct (Z.even q1); destruct (Z.even q2); lia.
Qed.

Lemma rne_div_opp (m k : Z) : rne_div (- m) k = - rne_div m k.
Proof.
  unfold rne_div. destruct (k <=? 0) eqn:E; [ring|].
  apply Z.leb_gt in E.
  pose proof (pow2_pos k ltac:(lia)) as Hp.
  pose proof (Z.div_mod m (2 ^ k) ltac:(lia)) as Hdm1.
  pose proof (Z.div_mod (- m) (2 ^ k) ltac:(lia)) as Hdm2.
  pose proof (Z.mod_pos_bound m (2 ^ k) ltac:(lia)) as Hr1.
  pose proof (Z.mod_pos_bound (- m) (2 ^ k) ltac:(lia)) as Hr2.
  assert (Hh : 2 ^ k = 2 * 2 ^ (k - 1)).
  { replace k with (1 + (k - 1)) at 1 by lia. rewrite pow2_add by lia.
    reflexivity. }
  set (q := m / 2 ^ k) in *. set (r := m mod 2 ^ k) in *.
  set (q' := - m / 2 ^ k) in *. set (r' := - m mod 2 ^ k) in *.
  set (h := 2 ^ (k - 1)) in *.
  assert (Hsum0 : 2 ^ k * (q + q') + (r + r') = 0) by lia.
  assert (Hs1 : q + q' <= 0) by nia.
  assert (Hs2 : -2 < q + q') by nia.
  assert (Hcase : (q' = - q /\ r = 0 /\ r' = 0)
                  \/ (q' = - q - 1 /\ r + r' = 2 * h)).
  { assert (Hs : q + q' = 0 \/ q + q' = -1) by lia.
    destruct Hs as [Hs|Hs].
    - left. rewrite Hs in Hsum0. lia.
    - right. rewrite Hs in Hsum0. lia. }
  destruct Hcase as [(-> & -> & ->)|(-> & Hsum)].
  - destruct (0 <? h) eqn:A; [reflexivity|apply Z.ltb_ge in A; lia].
  - assert (Hpar : Z.even (- q - 1) = negb (Z.even q)).
    { replace (- q - 1) with (Z.pred (- q)) by lia.
      rewrite Z.even_pred, Z.odd_opp, <- Z.negb_even. reflexivity. }
    rewrite Hpar.
    destruct (r <? h) eqn:A1; destruct (r' <? h) eqn:A2;
      destruct (h <? r) eqn:B1; destruct (h <? r') eqn:B2;
      destruct (Z.even q); cbn [negb];
      try apply Z.ltb_lt in A1; try apply Z.ltb_ge in A1;
      try apply Z.ltb_lt in A2; try apply Z.ltb_ge in A2;
      try apply Z.ltb_lt in B1; try apply Z.ltb_ge in B1;
      try apply Z.ltb_lt in B2; try apply Z.ltb_ge in B2; cbv iota; lia.
Qed.

(** *** Rounding to binary64 on a grid *)

Lemma cexp_ge_emin (m e : Z) : emin <= cexp m e.
Proof. unfold cexp. lia. Qed.

Lemma cexp_opp (m e : Z) : cexp (- m) e = cexp m e.
Proof. unfold cexp. rewrite Z.abs_opp. reflexivity. Qed.

Lemma cexp_scale (m e j : Z) :
  m <> 0 -> 0 <= j -> cexp (m * 2 ^ j) (e - j) = cexp m e.
Proof.
  intros Hm Hj. unfold cexp.
  pose proof (pow2_pos j Hj) as Hp.
  rewrite Z.abs_mul, (Z.abs_eq (2 ^ j)) by lia.
  rewrite Z.log2_mul_pow2 by lia. f_equal. lia.
Qed.

Lemma round_on_opp (E X : Z) : round_on E (- X) = - round_on E X.
Proof. unfold round_on. rewrite cexp_opp, rne_div_opp. ring. Qed.

Lemma round_on_0 (E : Z) : E <= emin -> round_on E 0 = 0.
Proof.
  intros HE. unfold round_on.
  pose proof (cexp_ge_emin 0 E).
  replace 0 with (0 * 2 ^ (cexp 0 E - E)) at 1 by ring.
  rewrite rne_div_exact by lia. ring.
Qed.

(** [round_mant] is [round_on] read on any grid fine enough. *)
Lemma round_mant_grid (E m e : Z) :
  E <= e -> E <= emin ->
  E <= snd (round_mant m e)
  /\ grid E (fst (round_mant m e)) (snd (round_mant m e))
     = round_on E (grid E m e).
Proof.
  intros He HE. pose proof (cexp_ge_emin m e) as Hc.
  destruct (Z.eq_dec m 0) as [->|Hm].
  - unfold grid at 2. rewrite Z.mul_0_l, round_on_0 by assumption.
    unfold round_mant. destruct (cexp 0 e <=? e) eqn:C; simpl.
    + split; [lia|unfold grid; ring].
    + split; [lia|]. unfold grid.
      apply Z.leb_gt in C.
      replace 0 with (0 * 2 ^ (cexp 0 e - e)) at 1 by ring.
      rewrite rne_div_exact by lia. ring.
  - assert (Hcx : cexp (grid E m e) E = cexp m e).
    { unfold grid. replace E with (e - (e - E)) at 2 by lia.
      apply cexp_scale; [exact Hm|lia]. }
    unfold round_on. rewrite Hcx.
    unfold round_mant. destruct (cexp m e <=? e) eqn:C; simpl.
    + apply Z.leb_le in C. split; [lia|].
      unfold grid at 2.
      replace (e - E) with ((e - cexp m e) + (cexp m e - E)) by lia.
      rewrite pow2_add, Z.mul_assoc by lia.
      rewrite rne_div_exact by lia.
      unfold grid.
      replace (e - E) with ((e - cexp m e) + (cexp m e - E)) by lia.
      rewrite pow2_add by lia. ring.
    + apply Z.leb_gt in C. split; [lia|].
      unfold grid.
      replace (cexp m e - E) with ((cexp m e - e) + (e - E)) at 2 by lia.
      rewrite rne_div_scale by lia. reflexivity.
Qed.

Lemma log2_bounds (X : Z) :
  0 < X -> 2 ^ Z.log2 X <= X < 2 ^ (Z.log2 X + 1).
Proof. intros H. apply Z.log2_spec. exact H. Qed.

Lemma round_on_mono_pos (E X Y : Z) :
  E <= emin -> 0 < X -> X <= Y -> round_on E X <= round_on E Y.
Proof.
  unfold emin. intros HE HX HXY. unfold round_on.
  assert (Hlog : Z.log2 X <= Z.log2 Y) by (apply Z.log2_le_mono; lia).
  assert (HcX : cexp X E = Z.max (Z.log2 X + 1 + E - 53) (-1074)).
  { unfold cexp, prec, emin. rewrite Z.abs_eq by lia. reflexivity. }
  assert (HcY : cexp Y E = Z.max (Z.log2 Y + 1 + E - 53) (-1074)).
  { unfold cexp, prec, emin. rewrite Z.abs_eq by lia. reflexivity. }
  set (kX := cexp X E - E) in *. set (kY := cexp Y E - E) in *.
  assert (HkX : 0 <= kX) by lia.
  assert (HkY : 0 <= kY) by lia.
  destruct (Z.eq_dec kX kY) as [Heq|Hne].
  - rewrite <- Heq. pose proof (rne_div_mono X Y kX HXY).
    pose proof (pow2_pos kX HkX). nia.
  - assert (Hlt : kX < kY) by lia.
    assert (Hlog' : Z.log2 X < Z.log2 Y) by lia.
    assert (HkYP : kY <= Z.log2 Y) by lia.
    pose proof (log2_bounds X HX) as [_ HXhi].
    pose proof (log2_bounds Y ltac:(lia)) as [HYlo _].
    pose proof (Z.log2_nonneg X) as HlX.
    set (P := 2 ^ Z.log2 Y) in *.
    assert (HXP : X <= P).
    { unfold P. assert (2 ^ (Z.log2 X + 1) <= 2 ^ Z.log2 Y)
        by (apply Z.pow_le_mono_r; lia). lia. }
    assert (HPX : rne_div P kX * 2 ^ kX = P).
    { unfold P. replace (Z.log2 Y) with ((Z.log2 Y - kX) + kX) at 1 by lia.
      rewrite pow2_add by lia. rewrite rne_div_exact by lia.
      rewrite <- pow2_add by lia. f_equal. lia. }
    assert (HPY : rne_div P kY * 2 ^ kY = P).
    { unfold P. replace (Z.log2 Y) with ((Z.log2 Y - kY) + kY) at 1 by lia.
      rewrite pow2_add by lia. rewrite rne_div_exact by lia.
      rewrite <- pow2_add by lia. f_equal. lia. }
    pose proof (rne_div_mono X P kX HXP).
    pose proof (rne_div_mono P Y kY HYlo).
    pose proof (pow2_pos kX HkX). pose proof (pow2_pos kY HkY). nia.
Qed.

Lemma round_on_mono (E X Y : Z) :
  E <= emin -> X <= Y -> round_on E X <= round_on E Y.
Proof.
  intros HE HXY.
  assert (Hpos : forall Z0, 0 <= Z0 -> 0 <= round_on E Z0).
  { intros Z0 H0. destruct (Z.eq_dec Z0 0) as [->|Hn].
    - rewrite round_on_0 by assumption. lia.
    - unfold round_on. pose proof (cexp_ge_emin Z0 E).
      pose proof (rne_div_mono 0 Z0 (cexp Z0 E - E) H0) as Hm.
      replace 0 with (0 * 2 ^ (cexp Z0 E - E)) in Hm at 1 by ring.
      rewrite rne_div_exact in Hm by lia.
      pose proof (pow2_pos (cexp Z0 E - E) ltac:(lia)). nia. }
  destruct (Z_lt_le_dec 0 X) as [HX|HX].
  - apply round_on_mono_pos; assumption.
  - destruct (Z_lt_le_dec Y 0) as [HY|HY].
    + pose proof (round_on_mono_pos E (- Y) (- X) HE ltac:(lia) ltac:(lia))
        as H. rewrite !round_on_opp in H. lia.
    + pose proof (Hpos Y HY). pose proof (Hpos (- X) ltac:(lia)) as H1.
      rewrite round_on_opp in H1. lia.
Qed.

(** *** The operations of the clock computation *)

Lemma of_exact_Fin (m e a b : Z) :
  of_exact m e = Fin a b -> round_mant m e = (a, b).
Proof.
  unfold of_exact. destruct (round_mant m e) as [m' e'].
  destruct (overflows m' e'); [discriminate|].
  intros H. inversion H. reflexivity.
Qed.

Lemma of_exact_mono (m1 e1 m2 e2 a1 b1 a2 b2 : Z) :
  le (Fin m1 e1) (Fin m2 e2) ->
  of_exact m1 e1 = Fin a1 b1 -> of_exact m2 e2 = Fin a2 b2 ->
  le (Fin a1 b1) (Fin a2 b2).
Proof.
  intros Hle H1 H2. apply of_exact_Fin in H1, H2.
  set (E := Z.min (Z.min e1 e2) emin).
  destruct (round_mant_grid E m1 e1 ltac:(lia) ltac:(lia)) as [Hb1 Hg1].
  destruct (round_mant_grid E m2 e2 ltac:(lia) ltac:(lia)) as [Hb2 Hg2].
  rewrite H1 in Hb1, Hg1. rewrite H2 in Hb2, Hg2. simpl in Hb1, Hg1, Hb2, Hg2.
  apply (le_grid E); [assumption|assumption|].
  rewrite Hg1, Hg2. apply round_on_mono; [lia|].
  apply (le_grid E); [lia|lia|exact Hle].
Qed.

Lemma grid_add (E m1 e1 m2 e2 : Z) :
  E <= e1 -> E <= e2 ->
  grid E (m1 * 2 ^ (e1 - Z.min e1 e2) + m2 * 2 ^ (e2 - Z.min e1 e2))
       (Z.min e1 e2)
  = grid E m1 e1 + grid E m2 e2.
Proof.
  intros H1 H2. fold (grid (Z.min e1 e2) m1 e1).
  fold (grid (Z.min e1 e2) m2 e2).
  rewrite (grid_regrid (Z.min e1 e2) E m1 e1) by lia.
  rewrite (grid_regrid (Z.min e1 e2) E m2 e2) by lia.
  unfold grid at 1. ring.
Qed.

Lemma add_mono (x y z : double) (a1 b1 a2 b2 : Z) :
  le x y -> add x z = Fin a1 b1 -> add y z = Fin a2 b2 ->
  le (Fin a1 b1) (Fin a2 b2).
Proof.
  intros Hle H1 H2.
  destruct x as [m1 e1| |]; try contradiction.
  destruct y as [m2 e2| |]; try contradiction.
  destruct z as [mz ez|s|]; try discriminate.
  cbn [add] in H1, H2.
  refine (of_exact_mono _ _ _ _ _ _ _ _ _ H1 H2).
  set (E := Z.min (Z.min e1 e2) ez).
  apply (le_grid E); [lia|lia|].
  rewrite !grid_add by lia.
  apply (le_grid E) in Hle; lia.
Qed.

Lemma mul_mono (x y : double) (mz ez a1 b1 a2 b2 : Z) :
  0 <= mz ->
  le x y -> mul x (Fin mz ez) = Fin a1 b1 -> mul y (Fin mz ez) = Fin a2 b2 ->
  le (Fin a1 b1) (Fin a2 b2).
Proof.
  intros Hz Hle H1 H2.
  destruct x as [m1 e1| |]; try contradiction.
  destruct y as [m2 e2| |]; try contradiction.
  cbn [mul] in H1, H2.
  refine (of_exact_mono _ _ _ _ _ _ _ _ _ H1 H2).
  set (E := Z.min e1 e2).
  apply (le_grid (E + ez)); [lia|lia|].
  apply (le_grid E) in Hle; [|lia|lia].
  unfold grid in *.
  replace (e1 + ez - (E + ez)) with (e1 - E) by lia.
  replace (e2 + ez - (E + ez)) with (e2 - E) by lia.
  replace (m1 * mz * 2 ^ (e1 - E)) with (mz * (m1 * 2 ^ (e1 - E))) by ring.
  replace (m2 * mz * 2 ^ (e2 - E)) with (mz * (m2 * 2 ^ (e2 - E))) by ring.
  apply Z.mul_le_mono_nonneg_l; assumption.
Qed.

(** [BigInt(Math.round(x))] is the floor of [x + 1/2], read on any grid. *)
Lemma nearest_integer_grid (E m e : Z) :
  E <= e -> E <= 0 ->
  BigInt (Math_round (Fin m e))
  = Ok ((2 * grid E m e + 2 ^ (- E)) / 2 ^ (1 - E)).
Proof.
  intros He HE. unfold Math_round, grid.
  pose proof (pow2_pos (- E) ltac:(lia)) as HpE.
  destruct (0 <=? e) eqn:C.
  - apply Z.leb_le in C. unfold BigInt. rewrite (proj2 (Z.leb_le 0 e) C).
    f_equal.
    replace (e - E) with (e + - E) by lia. rewrite pow2_add by lia.
    replace (1 - E) with (1 + - E) by lia. rewrite pow2_add by lia.
    replace (2 * (m * (2 ^ e * 2 ^ (- E))) + 2 ^ (- E))
      with ((2 * (m * 2 ^ e) + 1) * 2 ^ (- E)) by ring.
    rewrite Z.div_mul_cancel_r by lia.
    apply Z.div_unique with (r := 1); [lia|]. change (2 ^ 1) with 2. ring.
  - apply Z.leb_gt in C. cbn [BigInt]. cbn [Z.leb Z.compare].
    f_equal. rewrite Z.pow_0_r, Z.mul_1_r.
    pose proof (pow2_pos (e - E) ltac:(lia)) as Hq.
    pose proof (pow2_pos (- e + 1) ltac:(lia)) as Hd.
    assert (H1 : 2 ^ (- E) = 2 ^ (- e) * 2 ^ (e - E))
      by (rewrite <- pow2_add by lia; f_equal; lia).
    assert (H2 : 2 ^ (1 - E) = 2 ^ (- e + 1) * 2 ^ (e - E))
      by (rewrite <- pow2_add by lia; f_equal; lia).
    rewrite H2.
    replace (2 * (m * 2 ^ (e - E)) + 2 ^ (- E))
      with ((2 * m + 2 ^ (- e)) * 2 ^ (e - E)) by (rewrite H1; ring).
    rewrite Z.div_mul_cancel_r by lia. reflexivity.
Qed.

Lemma Ok_inj {A} (a b : A) : Ok a = Ok b -> a = b.
Proof. intros H. congruence. Qed.

Lemma nearest_integer_mono (m1 e1 m2 e2 n1 n2 : Z) :
  le (Fin m1 e1) (Fin m2 e2) ->
  BigInt (Math_round (Fin m1 e1)) = Ok n1 ->
  BigInt (Math_round (Fin m2 e2)) = Ok n2 ->
  n1 <= n2.
Proof.
  intros Hle H1 H2.
  assert (HE : exists E, E <= e1 /\ E <= e2 /\ E <= 0)
    by (exists (Z.min (Z.min e1 e2) 0); lia).
  destruct HE as (E & He1 & He2 & HE).
  rewrite (nearest_integer_grid E) in H1, H2 by assumption.
  apply Ok_inj in H1, H2. subst n1 n2.
  apply (le_grid E) in Hle; [|assumption|assumption].
  apply Z.div_le_mono; [apply pow2_pos; lia|lia].
Qed.

Lemma BigInt_Ok_Fin (x : double) (n : Z) :
  BigInt (Math_round x) = Ok n -> exists m e, x = Fin m e.
Proof. destruct x as [m e| |]; [eauto|discriminate|discriminate]. Qed.

Lemma round_on_pow2 (E j : Z) :
  E <= emin -> emin <= j -> round_on E (2 ^ (j - E)) = 2 ^ (j - E).
Proof.
  unfold emin. intros HE Hj. unfold round_on.
  assert (Hc : cexp (2 ^ (j - E)) E = Z.max (j - 52) (-1074)).
  { unfold cexp, prec, emin.
    rewrite Z.abs_eq by (apply Z.lt_le_incl, pow2_pos; lia).
    rewrite Z.log2_pow2 by lia. f_equal. lia. }
  rewrite Hc. set (k := Z.max (j - 52) (-1074) - E).
  assert (Hk : 0 <= k <= j - E) by (unfold k; lia).
  replace (j - E) with ((j - E - k) + k) at 1 by lia.
  rewrite pow2_add by lia. rewrite rne_div_exact by lia.
  rewrite <- pow2_add by lia. f_equal. lia.
Qed.

Lemma of_exact_within (E m e j : Z) :
  E <= e -> E <= emin -> 0 <= j <= 1023 ->
  Z.abs (grid E m e) <= 2 ^ (j - E) ->
  exists a b,
    of_exact m e = Fin a b /\ E <= b
    /\ Z.abs (grid E a b) <= 2 ^ (j - E).
Proof.
  unfold emin. intros He HE Hj Hm.
  destruct (round_mant_grid E m e He HE) as [Hb Hg].
  unfold of_exact. destruct (round_mant m e) as [a b]. simpl in Hb, Hg.
  assert (Hr : Z.abs (grid E a b) <= 2 ^ (j - E)).
  { rewrite Hg.
    pose proof (round_on_mono E (grid E m e) (2 ^ (j - E)) HE ltac:(lia))
      as Hhi.
    pose proof (round_on_mono E (- 2 ^ (j - E)) (grid E m e) HE ltac:(lia))
      as Hlo.
    rewrite round_on_opp in Hlo.
    rewrite round_on_pow2 in Hhi, Hlo by (unfold emin; lia). lia. }
  assert (Hov : overflows a b = false).
  { unfold overflows. destruct (0 <=? b) eqn:B; [|reflexivity].
    apply Z.leb_le in B. cbn [andb]. apply Z.leb_gt.
    unfold grid in Hr. rewrite Z.abs_mul in Hr.
    pose proof (pow2_pos (b - E) ltac:(lia)) as Hp.
    rewrite (Z.abs_eq (2 ^ (b - E))) in Hr by lia.
    replace (b - E) with (b + - E) in Hr by lia.
    replace (j - E) with (j + - E) in Hr by lia.
    rewrite !pow2_add in Hr by lia.
    pose proof (pow2_pos (- E) ltac:(lia)) as HpE.
    assert (Hab : Z.abs a * 2 ^ b <= 2 ^ j) by nia.
    assert (2 ^ j < 2 ^ emax)
      by (apply Z.pow_lt_mono_r; unfold emax; lia).
    lia. }
  rewrite Hov. exists a, b. repeat split; assumption.
Qed.

End DoubleFacts.

(** ** [get_now_nsec] *)

Module ClockFacts.
Import Double DoubleFacts Worker.

Lemma of_Z_200 : of_Z 200 = Fin 200 0.
Proof. reflexivity. Qed.

Lemma get_now_nsec_Ok (now timeOrigin : double) (h h' : host) (r : Z) :
  get_now_nsec now timeOrigin h = (Ok r, h') ->
  exists n,
    BigInt (Math_round (mul (add now timeOrigin) (Fin 200 0))) = Ok n
    /\ r = n * 5000 /\ h' = h.
Proof.
  unfold get_now_nsec, bind, lift, ret. rewrite of_Z_200.
  destruct (BigInt _) as [n|e]; [|discriminate].
  intros H. exists n. split; [reflexivity|]. split; congruence.
Qed.

(** Every value [get_now_nsec] returns is a multiple of 5000, and the call
    changes nothing on the host. *)
Lemma get_now_nsec_multiple (now timeOrigin : double) (h h' : host) (r : Z) :
  get_now_nsec now timeOrigin h = (Ok r, h') -> (5000 | r) /\ h' = h.
Proof.
  intros H. apply get_now_nsec_Ok in H. destruct H as (n & _ & -> & ->).
  split; [exists n; reflexivity|reflexivity].
Qed.

Lemma product_Fin (s : double) (mz ez a b : Z) :
  mul s (Fin mz ez) = Fin a b -> exists m e, s = Fin m e.
Proof.
  destruct s as [m e|neg|]; [eauto| |discriminate].
  cbn [mul]. destruct (mz =? 0); discriminate.
Qed.

(** C5 -- the values [get_now_nsec] returns are multiples of 5000, and two
    calls of one context (same [timeOrigin]) whose clock readings are in
    order return values in the same order. *)
Theorem get_now_nsec_rounded_and_monotone
  (timeOrigin now1 now2 : double) (h1 h1' h2 h2' : host) (r1 r2 : Z) :
  Double.le now1 now2 ->
  get_now_nsec now1 timeOrigin h1 = (Ok r1, h1') ->
  get_now_nsec now2 timeOrigin h2 = (Ok r2, h2') ->
  (5000 | r1) /\ (5000 | r2) /\ r1 <= r2.
Proof.
  intros Hle H1 H2.
  destruct (get_now_nsec_multiple _ _ _ _ _ H1) as [Hd1 _].
  destruct (get_now_nsec_multiple _ _ _ _ _ H2) as [Hd2 _].
  split; [exact Hd1|]. split; [exact Hd2|].
  apply get_now_nsec_Ok in H1, H2.
  destruct H1 as (n1 & Hn1 & -> & _). destruct H2 as (n2 & Hn2 & -> & _).
  destruct (BigInt_Ok_Fin _ _ Hn1) as (a1 & b1 & Hp1).
  destruct (BigInt_Ok_Fin _ _ Hn2) as (a2 & b2 & Hp2).
  destruct (product_Fin _ _ _ _ _ Hp1) as (s1 & t1 & Hs1).
  destruct (product_Fin _ _ _ _ _ Hp2) as (s2 & t2 & Hs2).
  rewrite Hp1 in Hn1. rewrite Hp2 in Hn2. rewrite Hs1 in Hp1. rewrite Hs2 in Hp2.
  pose proof (add_mono _ _ _ _ _ _ _ Hle Hs1 Hs2) as Hsum.
  pose proof (mul_mono _ _ 200 0 _ _ _ _ ltac:(lia) Hsum Hp1 Hp2) as Hprod.
  pose proof (nearest_integer_mono _ _ _ _ _ _ Hprod Hn1 Hn2). lia.
Qed.

Lemma get_now_nsec_rounded_and_monotone_witness :
  Double.le (Fin 2469 (-1)) (Fin 1264133 (-10))
  /\ get_now_nsec (Fin 2469 (-1)) (Fin 1700000000000 0) (empty_host [])
     = (Ok 1700000001234500000, empty_host [])
  /\ get_now_nsec (Fin 1264133 (-10)) (Fin 1700000000000 0) (empty_host [])
     = (Ok 1700000001234505000, empty_host [])
  /\ (5000 | 1700000001234500000) /\ (5000 | 1700000001234505000)
  /\ 1700000001234500000 <= 1700000001234505000.
Proof.
  assert (Hle : Double.le (Fin 2469 (-1)) (Fin 1264133 (-10)))
    by (apply Z.leb_le; vm_compute; reflexivity).
  split; [exact Hle|].
  split; [vm_compute; reflexivity|]. split; [vm_compute; reflexivity|].
  apply (get_now_nsec_rounded_and_monotone
           (Fin 1700000000000 0) (Fin 2469 (-1)) (Fin 1264133 (-10))
           (empty_host []) (empty_host []) (empty_host []) (empty_host [])).
  - exact Hle.
  - vm_compute. reflexivity.
  - vm_compute. reflexivity.
Defined.

(** X12 -- for clock readings that are finite and of magnitude up to
    [2^1000], [get_now_nsec] returns a value and leaves the host as it
    was. *)
Lemma get_now_nsec_returns (now timeOrigin : double) (h : host) :
  within 1000 now -> within 1000 timeOrigin ->
  exists r, get_now_nsec now timeOrigin h = (Ok r, h).
Proof.
  intros Hn Ho.
  destruct now as [m1 e1| |]; try contradiction.
  destruct timeOrigin as [m2 e2| |]; try contradiction.
  cbn [within] in Hn, Ho.
  assert (HE : exists E, E <= e1 /\ E <= e2 /\ E <= emin)
    by (exists (Z.min (Z.min e1 e2) emin); lia).
  destruct HE as (E & He1 & He2 & HE). unfold emin in HE.
  specialize (Hn E He1 ltac:(lia)). specialize (Ho E He2 ltac:(lia)).
  destruct (of_exact_within E
              (m1 * 2 ^ (e1 - Z.min e1 e2) + m2 * 2 ^ (e2 - Z.min e1 e2))
              (Z.min e1 e2) 1001) as (s & t & Hs & Ht & Hsb);
    [lia|exact HE|lia| |].
  { rewrite grid_add by lia.
    replace (1001 - E) with (1 + (1000 - E)) by lia.
    rewrite pow2_add by lia. change (2 ^ 1) with 2. lia. }
  destruct (of_exact_within (E + 0) (s * 200) (t + 0) 1009)
    as (a & b & Ha & Hb & Hab); [lia|unfold emin; lia|lia| |].
  { unfold grid in *. replace (t + 0 - (E + 0)) with (t - E) by lia.
    replace (1009 - (E + 0)) with (8 + (1001 - E)) by lia.
    rewrite pow2_add by lia. change (2 ^ 8) with 256.
    replace (s * 200 * 2 ^ (t - E)) with (200 * (s * 2 ^ (t - E))) by ring.
    rewrite Z.abs_mul. change (Z.abs 200) with 200.
    pose proof (Z.abs_nonneg (s * 2 ^ (t - E))). nia. }
  unfold get_now_nsec, bind, lift, ret. rewrite of_Z_200.
  cbn [add]. rewrite Hs. cbn [mul]. rewrite Ha.
  rewrite (nearest_integer_grid (Z.min b 0)) by lia.
  eexists. reflexivity.
Qed.

End ClockFacts.

(** ** The import table as a whole *)

Module BridgeFacts.
Import Worker TypedArray TypedArrayFacts Observe Samples.

Lemma BigInt_Throw (x : Double.double) (e : exn) :
  Double.BigInt x = Throw e -> e = RangeError.
Proof.
  destruct x as [m k| |]; unfold Double.BigInt; [|congruence|congruence].
  destruct (0 <=? k); [discriminate|].
  destruct (m mod 2 ^ (- k) =? 0); [discriminate|congruence].
Qed.

(** What one import does to the memory, the result and the host. *)
Lemma imports_cases
  (decode : list byte -> string) (self : nat) (c : call) (h : host) :
  (exists e, imports decode self c h = (Throw e, h)
             /\ can_throw c = true
             /\ (e = RangeError
                 \/ e = AssertionError "Device tree truncated"))
  \/ (exists v h',
        imports decode self c h = (Ok v, h')
        /\ List.length (memory h') = List.length (memory h)
        /\ (writes_memory c = false -> memory h' = memory h)).
Proof.
  destruct c;
    try (right; do 2 eexists; split; [reflexivity|]; split; reflexivity).
  - (* get_dt *)
    unfold imports, void, get_dt, bind, get.
    destruct (nth_error (instances h) self) as [i|];
      [|right; do 2 eexists; split; [reflexivity|]; split; reflexivity].
    destruct (inst_get_dt i) as [|devicetree];
      [right; do 2 eexists; split; [reflexivity|]; split; reflexivity|].
    unfold get_dt_boot, assert, bind, get, lift, modify, throw, ret.
    destruct (size >=? byteLength devicetree).
    + destruct (set (memory h) (slice devicetree 0 size) buf) as [m|e] eqn:E.
      * right. do 2 eexists. split; [reflexivity|].
        apply set_Ok in E. destruct E as (Hb & Hfit & ->). split.
        -- simpl. apply splice_length. unfold byteLength in Hfit. lia.
        -- discriminate.
      * left. apply set_Throw in E. subst e. eexists.
        split; [reflexivity|]. split; [reflexivity|]. left. reflexivity.
    + left. eexists. split; [reflexivity|]. split; [reflexivity|].
      right. reflexivity.
  - (* get_now_nsec *)
    unfold imports, get_now_nsec, bind, lift, ret.
    destruct (Double.BigInt _) as [n|e] eqn:E.
    + right. do 2 eexists. split; [reflexivity|]. split; reflexivity.
    + left. exists e. split; [reflexivity|]. split; [reflexivity|]. left.
      apply BigInt_Throw in E. exact E.
  - (* get_stacktrace *)
    unfold imports, void, get_stacktrace, bind, get, lift, modify, ret.
    set (src := slice (mark_truncated (stack_trace stack) size) 0 size).
    destruct (set (memory h) src buf) as [m|e] eqn:E.
    + right. do 2 eexists. split; [reflexivity|].
      apply set_Ok in E. destruct E as (Hb & Hfit & ->). split.
      * simpl. apply splice_length. unfold byteLength in Hfit. lia.
      * discriminate.
    + left. apply set_Throw in E. subst e. eexists.
      split; [reflexivity|]. split; [reflexivity|]. left. reflexivity.
Qed.

(** X1 -- whatever the instantiations do through their import tables, in
    whatever order, the shared memory keeps its size. *)
Theorem run_keeps_memory_size
  (decode : list byte -> string) (es : list event) (h : host) :
  List.length (memory (run decode es h)) = List.length (memory h).
Proof.
  revert h. induction es as [|e es IH]; intros h; [reflexivity|].
  change (run decode (e :: es) h) with (run decode es (step decode e h)).
  rewrite IH. destruct e as [g|self c]; [reflexivity|]. simpl.
  destruct (imports_cases decode self c h)
    as [(e & He & _)|(v & h' & He & Hlen & _)]; rewrite He; simpl; auto.
Qed.

(** X2 -- of all the imports only [get_dt] and [get_stacktrace] store into
    the shared memory: any other call leaves every byte as it was. *)
Theorem only_two_imports_write_memory
  (decode : list byte -> string) (self : nat) (c : call) (h : host) :
  writes_memory c = false ->
  memory (snd (imports decode self c h)) = memory h.
Proof.
  intros Hc.
  destruct (imports_cases decode self c h)
    as [(e & He & _)|(v & h' & He & _ & Hmem)]; rewrite He; simpl; auto.
Qed.

Lemma only_two_imports_write_memory_witness :
  writes_memory (CallNewWorker 7 4 8) = false
  /\ memory (snd (imports string_of_list_byte 0 (CallNewWorker 7 4 8)
                    worker_a_host))
     = memory worker_a_host.
Proof.
  split; [reflexivity|].
  apply (only_two_imports_write_memory string_of_list_byte 0
           (CallNewWorker 7 4 8) worker_a_host).
  reflexivity.
Defined.

(** X3 -- an import that throws has changed nothing: the host is as before
    the call, the call is one of [get_dt], [get_now_nsec], [get_stacktrace],
    and the exception is a [RangeError] or the failed assertion
    "Device tree truncated". *)
Theorem throwing_import_changes_nothing
  (decode : list byte -> string) (self : nat) (c : call) (h h' : host)
  (e : exn) :
  imports decode self c h = (Throw e, h') ->
  h' = h
  /\ can_throw c = true
  /\ (e = RangeError \/ e = AssertionError "Device tree truncated").
Proof.
  intros H.
  destruct (imports_cases decode self c h)
    as [(e0 & He & Hc & Hk)|(v & h0 & He & _)]; rewrite He in H.
  - inversion H. subst. auto.
  - discriminate.
Qed.

Lemma throwing_import_changes_nothing_witness :
  imports string_of_list_byte 0 (CallGetStacktrace (Some sample_stack) 12 9)
          (empty_host (zeros 16))
  = (Throw RangeError, empty_host (zeros 16))
  /\ empty_host (zeros 16) = empty_host (zeros 16)
  /\ can_throw (CallGetStacktrace (Some sample_stack) 12 9) = true
  /\ (RangeError = RangeError
      \/ RangeError = AssertionError "Device tree truncated").
Proof.
  split; [reflexivity|].
  apply (throwing_import_changes_nothing string_of_list_byte 0
           (CallGetStacktrace (Some sample_stack) 12 9)
           (empty_host (zeros 16)) (empty_host (zeros 16)) RangeError).
  reflexivity.
Defined.

Lemma run_calls_app
  (decode : list byte -> string) (self : nat) (cs1 cs2 : list call)
  (h h1 : host) :
  run_calls decode self cs1 h = (Ok tt, h1) ->
  run_calls decode self (cs1 ++ cs2) h = run_calls decode self cs2 h1.
Proof.
  revert h. induction cs1 as [|c cs1 IH]; intros h H.
  - simpl in H. unfold ret in H. inversion H. reflexivity.
  - simpl in *. unfold bind in *.
    destruct (imports decode self c h) as [[v|e] h']; [|discriminate].
    apply IH. exact H.
Qed.

(** X4 -- an entry point ends at the first import that throws: the calls
    before it have had their effect, the throwing call and the calls after
    it have none, and the exception is the result of the entry call. *)
Theorem run_calls_ends_at_first_throw
  (decode : list byte -> string) (self : nat) (cs1 cs2 : list call)
  (c : call) (h h1 : host) (e : exn) :
  run_calls decode self cs1 h = (Ok tt, h1) ->
  fst (imports decode self c h1) = Throw e ->
  run_calls decode self (cs1 ++ c :: cs2) h = (Throw e, h1).
Proof.
  intros H1 Hc. rewrite (run_calls_app _ _ _ _ _ _ H1). simpl. unfold bind.
  destruct (imports_cases decode self c h1)
    as [(e0 & He & _)|(v & h2 & He & _)]; rewrite He in *; simpl in Hc.
  - inversion Hc. reflexivity.
  - discriminate.
Qed.

Lemma run_calls_ends_at_first_throw_witness :
  run_calls string_of_list_byte 0 [CallSetIrqEnabled 1] boot_host
  = (Ok tt,
     set_instances [mkInstance (GetDtBoot sample_blob) 1] boot_host)
  /\ fst (imports string_of_list_byte 0 (CallGetDt 4 7)
            (set_instances [mkInstance (GetDtBoot sample_blob) 1] boot_host))
     = Throw (AssertionError "Device tree truncated")
  /\ run_calls string_of_list_byte 0
       ([CallSetIrqEnabled 1]
        ++ CallGetDt 4 7 :: [CallBringupSecondary 1 2; CallHalt])
       boot_host
     = (Throw (AssertionError "Device tree truncated"),
        set_instances [mkInstance (GetDtBoot sample_blob) 1] boot_host).
Proof.
  split; [reflexivity|]. split; [reflexivity|].
  apply (run_calls_ends_at_first_throw string_of_list_byte 0
           [CallSetIrqEnabled 1] [CallBringupSecondary 1 2; CallHalt]
           (CallGetDt 4 7) boot_host
           (set_instances [mkInstance (GetDtBoot sample_blob) 1] boot_host)
           (AssertionError "Device tree truncated"));
    reflexivity.
Defined.

(** For an offset and a length that are not negative, [slice] is the bytes
    that exist in the region: what lies past the end is simply absent. *)
Lemma slice_region (a : list byte) (start len : Z) :
  0 <= start -> 0 <= len ->
  slice a start (start + len)
  = firstn (Z.to_nat len) (skipn (Z.to_nat start) a).
Proof.
  intros Hs Hl. unfold slice, clamp_index, byteLength.
  destruct (start <? 0) eqn:A; [apply Z.ltb_lt in A; lia|].
  destruct (start + len <? 0) eqn:B; [apply Z.ltb_lt in B; lia|].
  set (n := List.length a).
  destruct (Z_le_gt_dec start (Z.of_nat n)) as [H1|H1].
  - rewrite (Z.min_l start) by lia.
    destruct (Z_le_gt_dec (start + len) (Z.of_nat n)) as [H2|H2].
    + rewrite Z.min_l by lia. f_equal. lia.
    + rewrite Z.min_r by lia.
      rewrite !firstn_all2; [reflexivity| |]; rewrite length_skipn;
        fold n; lia.
  - rewrite (Z.min_r start) by lia. rewrite Z.min_r by lia.
    rewrite Z.sub_diag. simpl firstn.
    rewrite (skipn_all2 (n := Z.to_nat start)) by (fold n; lia).
    rewrite firstn_nil. reflexivity.
Qed.

(** X5 -- [boot_console_write msg len], for an offset and a length that are
    not negative, never throws and never stores: it logs one line, the
    decoding of the bytes of the region that exist in the memory (all [len]
    of them when the region lies inside, fewer or none when it runs past the
    end). *)
Theorem boot_console_write_reads_inside
  (decode : list byte -> string) (msg len : Z) (h : host) :
  0 <= msg -> 0 <= len ->
  boot_console_write decode msg len h
  = (Ok tt,
     log (decode (firstn (Z.to_nat len) (skipn (Z.to_nat msg) (memory h))))
         h).
Proof.
  intros Hm Hl. unfold boot_console_write, bind, get, modify.
  rewrite slice_region by assumption. reflexivity.
Qed.

Lemma boot_console_write_reads_inside_witness :
  0 <= 20 /\ 0 <= 8
  /\ boot_console_write string_of_list_byte 20 8 worker_a_host
     = (Ok tt, log "" worker_a_host).
Proof.
  split; [lia|]. split; [lia|].
  rewrite (boot_console_write_reads_inside string_of_list_byte 20 8
             worker_a_host); [|lia|lia].
  vm_compute. reflexivity.
Defined.

Lemma imports_posted
  (decode : list byte -> string) (self : nat) (c : call) (h : host) :
  exists sent,
    posted (snd (imports decode self c h)) = posted h ++ sent
    /\ map (fun p => (fst p, key_of (snd p))) sent
       = spawn_calls [Call self c].
Proof.
  destruct c; try (exists []; split; [symmetry; apply app_nil_r|reflexivity]).
  - exists []. split; [|reflexivity]. rewrite app_nil_r.
    unfold imports, void, get_dt, bind, get.
    destruct (nth_error (instances h) self) as [i|]; [|reflexivity].
    destruct (inst_get_dt i); [reflexivity|].
    unfold get_dt_boot, assert, bind, get, lift, modify, throw, ret.
    destruct (size >=? _); [|reflexivity].
    destruct (set _ _ _); reflexivity.
  - exists []. split; [|reflexivity]. rewrite app_nil_r.
    unfold imports, get_now_nsec, bind, lift, ret.
    destruct (Double.BigInt _); reflexivity.
  - exists []. split; [|reflexivity]. rewrite app_nil_r.
    unfold imports, void, get_stacktrace, bind, get, lift, modify, ret.
    destruct (set _ _ _); reflexivity.
  - eexists [_]. split; reflexivity.
  - eexists [_]. split; reflexivity.
Qed.

(** X6 -- the messages posted to the orchestrator only ever grow, at the
    end: after any events the earlier messages are still there in their
    order, followed by exactly one message per [new_worker] or
    [bringup_secondary] call, in the order of the calls, each tagged with its
    caller and carrying the handles of the call. *)
Theorem posted_follows_the_spawn_calls
  (decode : list byte -> string) (es : list event) (h : host) :
  exists sent,
    posted (run decode es h) = posted h ++ sent
    /\ map (fun p => (fst p, key_of (snd p))) sent = spawn_calls es.
Proof.
  revert h. induction es as [|e es IH]; intros h.
  - exists []. split; [symmetry; apply app_nil_r|reflexivity].
  - change (run decode (e :: es) h) with (run decode es (step decode e h)).
    destruct (IH (step decode e h)) as (sent2 & Hp2 & Hk2).
    assert (H1 : exists sent1,
               posted (step decode e h) = posted h ++ sent1
               /\ map (fun p => (fst p, key_of (snd p))) sent1
                  = spawn_calls [e]).
    { destruct e as [g|self c].
      - exists []. split; [symmetry; apply app_nil_r|reflexivity].
      - apply imports_posted. }
    destruct H1 as (sent1 & Hp1 & Hk1).
    exists (sent1 ++ sent2). split.
    + rewrite Hp2, Hp1, app_assoc. reflexivity.
    + rewrite map_app, Hk1, Hk2. unfold spawn_calls. simpl.
      rewrite app_nil_r. reflexivity.
Qed.

(** X7 -- the [get_dt] an instantiation was made with stays with it: no
    call of any instantiation, and no later instantiation, turns a task or
    secondary context into one that can fetch the device tree, or back. *)
Theorem get_dt_closure_is_permanent
  (decode : list byte -> string) (es : list event) (h : host)
  (self : nat) (i : instance) :
  nth_error (instances h) self = Some i ->
  exists i',
    nth_error (instances (run decode es h)) self = Some i'
    /\ inst_get_dt i' = inst_get_dt i.
Proof.
  revert h i. induction es as [|e es IH]; intros h i Hi; [eauto|].
  change (run decode (e :: es) h) with (run decode es (step decode e h)).
  assert (H1 : exists i1,
             nth_error (instances (step decode e h)) self = Some i1
             /\ inst_get_dt i1 = inst_get_dt i).
  { destruct e as [g|k c]; simpl.
    - exists i. split; [|reflexivity].
      rewrite nth_error_app1; [exact Hi|].
      apply nth_error_Some. congruence.
    - rewrite InterruptFlag.imports_instances.
      destruct c; eauto.
      rewrite InterruptFlag.nth_error_update_nth, Hi.
      destruct (Nat.eqb k self); simpl; eauto. }
  destruct H1 as (i1 & Hi1 & Hg1).
  destruct (IH _ _ Hi1) as (i' & Hi' & Hg'). exists i'. split; congruence.
Qed.

Lemma get_dt_closure_is_permanent_witness :
  nth_error (instances task_host) 0 = Some (mkInstance GetDtDefault 0)
  /\ exists i',
       nth_error
         (instances
            (run string_of_list_byte
                 [Call 0 (CallSetIrqEnabled 1);
                  Instantiate (GetDtBoot sample_blob);
                  Call 1 (CallGetDt 0 8)] task_host)) 0
       = Some i'
       /\ inst_get_dt i' = inst_get_dt (mkInstance GetDtDefault 0).
Proof.
  split; [reflexivity|].
  apply (get_dt_closure_is_permanent string_of_list_byte
           [Call 0 (CallSetIrqEnabled 1);
            Instantiate (GetDtBoot sample_blob);
            Call 1 (CallGetDt 0 8)] task_host 0
           (mkInstance GetDtDefault 0)).
  reflexivity.
Defined.

End BridgeFacts.

(** ** The trace [get_stacktrace] writes *)

Module StackTrace.
Import Worker TypedArray TypedArrayFacts Observe Samples.

Lemma split_lines_not_nil (s : string) : split_lines s <> [].
Proof.
  induction s as [|c s IH]; simpl; [discriminate|].
  destruct (Ascii.eqb c newline); [discriminate|].
  destruct (split_lines s); discriminate.
Qed.

Lemma join_lines_cons (c : ascii) (x : string) (l : list string) :
  join_lines (String c x :: l) = String c (join_lines (x :: l)).
Proof. destruct l; reflexivity. Qed.

(** Splitting a string at its line feeds and joining the pieces with
    line feeds gives the string back. *)
Lemma join_split_lines (s : string) : join_lines (split_lines s) = s.
Proof.
  induction s as [|c s IH]; [reflexivity|]. simpl.
  destruct (Ascii.eqb c newline) eqn:E.
  - apply Ascii.eqb_eq in E. subst c.
    destruct (split_lines s) as [|x l] eqn:S;
      [exfalso; exact (split_lines_not_nil s S)|].
    change (join_lines (EmptyString :: x :: l))
      with (String newline (join_lines (x :: l))).
    rewrite IH. reflexivity.
  - destruct (split_lines s) as [|x l] eqn:S;
      [exfalso; exact (split_lines_not_nil s S)|].
    rewrite join_lines_cons, IH. reflexivity.
Qed.

Lemma split_lines_line (x : string) (rest : list string) :
  no_newline x = true -> rest <> [] ->
  split_lines (x ++ String newline (join_lines rest))
  = x :: split_lines (join_lines rest).
Proof.
  intros Hx Hr. induction x as [|c x IH]; simpl.
  - reflexivity.
  - unfold no_newline in Hx. simpl in Hx. apply andb_true_iff in Hx.
    destruct Hx as [Hc Hx]. apply negb_true_iff in Hc. rewrite Hc.
    rewrite (IH Hx). reflexivity.
Qed.

Lemma split_lines_single (x : string) :
  no_newline x = true -> split_lines x = [x].
Proof.
  induction x as [|c x IH]; intros Hx; [reflexivity|]. simpl.
  unfold no_newline in Hx. simpl in Hx. apply andb_true_iff in Hx.
  destruct Hx as [Hc Hx]. apply negb_true_iff in Hc. rewrite Hc.
  rewrite (IH Hx). reflexivity.
Qed.

Lemma split_join_lines (ls : list string) :
  ls <> [] -> forallb no_newline ls = true ->
  split_lines (join_lines ls) = ls.
Proof.
  induction ls as [|x ls IH]; intros Hne Hok; [contradiction|].
  simpl in Hok. apply andb_true_iff in Hok. destruct Hok as [Hx Hls].
  destruct ls as [|y ls].
  - apply split_lines_single. exact Hx.
  - change (join_lines (x :: y :: ls))
      with ((x ++ String newline (join_lines (y :: ls)))%string).
    rewrite split_lines_line by (assumption || discriminate).
    rewrite IH by (assumption || discriminate). reflexivity.
Qed.

(** X8 -- of a stack of one or more lines, [get_stacktrace] keeps the lines
    after the fifth, joined as they were, and nothing of the first five; a
    stack of five lines or fewer leaves the empty trace. *)
Theorem stack_trace_drops_five_lines (ls : list string) :
  ls <> [] -> forallb no_newline ls = true ->
  stack_trace (Some (join_lines ls))
  = list_byte_of_string (join_lines (skipn 5 ls)).
Proof.
  intros Hne Hok. unfold stack_trace, TextEncoder_encode, option_map.
  rewrite split_join_lines by assumption. reflexivity.
Qed.

Lemma stack_trace_short (ls : list string) :
  ls <> [] -> forallb no_newline ls = true -> (List.length ls <= 5)%nat ->
  stack_trace (Some (join_lines ls)) = [].
Proof.
  intros Hne Hok Hlen. unfold stack_trace, TextEncoder_encode, option_map.
  rewrite split_join_lines by assumption.
  rewrite skipn_all2 by exact Hlen. reflexivity.
Qed.

Lemma stack_trace_drops_five_lines_witness :
  ["Error"; "at get_stacktrace"; "at wasm"; "at boot"; "at onmessage";
   "frame1"; "f2"]%string <> []
  /\ forallb no_newline
       ["Error"; "at get_stacktrace"; "at wasm"; "at boot"; "at onmessage";
        "frame1"; "f2"]%string = true
  /\ stack_trace (Some sample_stack)
     = list_byte_of_string (join_lines ["frame1"; "f2"]%string).
Proof.
  split; [discriminate|]. split; [reflexivity|].
  apply (stack_trace_drops_five_lines
           ["Error"; "at get_stacktrace"; "at wasm"; "at boot";
            "at onmessage"; "frame1"; "f2"]%string);
    [discriminate|reflexivity].
Defined.

Lemma store_outside (a : list byte) (i : Z) (v : byte) :
  byteLength a <= i -> store a i v = a.
Proof.
  intros H. unfold store.
  destruct (i <? byteLength a) eqn:E; [apply Z.ltb_lt in E; lia|].
  rewrite andb_false_r. reflexivity.
Qed.

(** X9 -- with a capacity of at least the length of the trace plus three,
    and a region that lies in the memory, [get_stacktrace] copies the whole
    trace to [buf] as it is. *)
Theorem get_stacktrace_roomy
  (stack : option string) (buf size : Z) (h : host) :
  byteLength (stack_trace stack) + 3 <= size ->
  0 <= buf ->
  buf + byteLength (stack_trace stack) <= byteLength (memory h) ->
  get_stacktrace stack buf size h
  = (Ok tt,
     set_memory (splice (memory h) (stack_trace stack) (Z.to_nat buf)) h).
Proof.
  intros Hsize Hbuf Hfit. unfold get_stacktrace, mark_truncated.
  destruct (size >=? byteLength (stack_trace stack)) eqn:E;
    [|rewrite Z.geb_leb in E; apply Z.leb_gt in E; lia].
  rewrite (store_outside (stack_trace stack) (size - 1)) by lia.
  rewrite (store_outside (stack_trace stack) (size - 2)) by lia.
  rewrite (store_outside (stack_trace stack) (size - 3)) by lia.
  unfold bind, get, lift, modify.
  rewrite slice_whole by lia. rewrite set_in_range by assumption.
  reflexivity.
Qed.

Lemma get_stacktrace_roomy_witness :
  byteLength (stack_trace (Some sample_stack)) + 3 <= 12
  /\ 0 <= 2
  /\ 2 + byteLength (stack_trace (Some sample_stack))
     <= byteLength (memory (empty_host (zeros 16)))
  /\ get_stacktrace (Some sample_stack) 2 12 (empty_host (zeros 16))
     = (Ok tt,
        set_memory
          (zeros 2 ++ list_byte_of_string (join_lines ["frame1"; "f2"]%string)
           ++ zeros 5)
          (empty_host (zeros 16))).
Proof.
  assert (H1 : byteLength (stack_trace (Some sample_stack)) + 3 <= 12)
    by (apply Z.leb_le; reflexivity).
  assert (H2 : 2 + byteLength (stack_trace (Some sample_stack))
               <= byteLength (memory (empty_host (zeros 16))))
    by (apply Z.leb_le; reflexivity).
  split; [exact H1|]. split; [lia|]. split; [exact H2|].
  rewrite (get_stacktrace_roomy (Some sample_stack) 2 12
             (empty_host (zeros 16)) H1 ltac:(lia) H2).
  reflexivity.
Defined.

Lemma store_inner (a b : list byte) (x v : byte) :
  store (a ++ x :: b) (byteLength a) v = a ++ v :: b.
Proof.
  unfold store, byteLength.
  assert (Hin : (0 <=? Z.of_nat (List.length a))
                && (Z.of_nat (List.length a)
                    <? Z.of_nat (List.length (a ++ x :: b))) = true).
  { apply andb_true_iff. split; [apply Z.leb_le; lia|].
    apply Z.ltb_lt. rewrite length_app. simpl. lia. }
  rewrite Hin, Nat2Z.id.
  rewrite firstn_app, Nat.sub_diag, firstn_all. cbn [firstn].
  rewrite app_nil_r. f_equal. f_equal.
  replace (S (List.length a)) with (List.length (a ++ [x]))
    by (rewrite length_app; simpl; lia).
  replace (a ++ x :: b) with ((a ++ [x]) ++ b)
    by (rewrite <- app_assoc; reflexivity).
  rewrite skipn_app, Nat.sub_diag, skipn_all. reflexivity.
Qed.

Lemma store_last (a : list byte) (x v : byte) :
  store (a ++ [x]) (byteLength a) v = a ++ [v].
Proof. apply store_inner. Qed.

(** X10 -- when the trace has exactly the length of the capacity (three
    bytes or more), what [get_stacktrace] copies is the trace with its last
    three bytes replaced by dots. *)
Theorem get_stacktrace_exact_fit
  (stack : option string) (buf : Z) (h : host)
  (body : list byte) (x y z : byte) :
  stack_trace stack = body ++ [x; y; z] ->
  0 <= buf ->
  buf + byteLength (stack_trace stack) <= byteLength (memory h) ->
  get_stacktrace stack buf (byteLength (stack_trace stack)) h
  = (Ok tt,
     set_memory (splice (memory h) (body ++ [dot; dot; dot]) (Z.to_nat buf))
                h).
Proof.
  intros Htrace Hbuf Hfit. unfold get_stacktrace, mark_truncated.
  rewrite Htrace in *.
  set (size := byteLength (body ++ [x; y; z])) in *.
  assert (Hsize : size = byteLength body + 3).
  { unfold size, byteLength. rewrite length_app. simpl. lia. }
  destruct (size >=? size) eqn:E;
    [|rewrite Z.geb_leb in E; apply Z.leb_gt in E; lia].
  assert (Hmark :
    store (store (store (body ++ [x; y; z]) (size - 1) dot) (size - 2) dot)
          (size - 3) dot
    = body ++ [dot; dot; dot]).
  { replace (size - 1) with (byteLength (body ++ [x; y]))
      by (unfold byteLength in *; rewrite length_app; simpl; lia).
    replace (body ++ [x; y; z]) with ((body ++ [x; y]) ++ [z])
      by (rewrite <- app_assoc; reflexivity).
    rewrite store_last.
    replace (size - 2) with (byteLength (body ++ [x]))
      by (unfold byteLength in *; rewrite length_app; simpl; lia).
    replace ((body ++ [x; y]) ++ [dot]) with ((body ++ [x]) ++ y :: [dot])
      by (rewrite <- !app_assoc; reflexivity).
    rewrite store_inner.
    replace (size - 3) with (byteLength body) by lia.
    replace ((body ++ [x]) ++ [dot; dot]) with (body ++ x :: [dot; dot])
      by (rewrite <- app_assoc; reflexivity).
    rewrite store_inner. reflexivity. }
  rewrite Hmark. unfold bind, get, lift, modify.
  assert (Hlen : byteLength (body ++ [dot; dot; dot]) = size).
  { unfold byteLength in *. rewrite length_app. simpl. lia. }
  rewrite slice_whole by lia. rewrite set_in_range by lia. reflexivity.
Qed.

Lemma get_stacktrace_exact_fit_witness :
  stack_trace (Some sample_stack)
  = list_byte_of_string "frame1" ++ ["010"%byte; "f"%byte; "2"%byte]
  /\ 0 <= 2
  /\ 2 + byteLength (stack_trace (Some sample_stack))
     <= byteLength (memory (empty_host (zeros 16)))
  /\ get_stacktrace (Some sample_stack) 2
       (byteLength (stack_trace (Some sample_stack)))
       (empty_host (zeros 16))
     = (Ok tt,
        set_memory (zeros 2 ++ list_byte_of_string "frame1..." ++ zeros 5)
                   (empty_host (zeros 16))).
Proof.
  assert (H2 : 2 + byteLength (stack_trace (Some sample_stack))
               <= byteLength (memory (empty_host (zeros 16))))
    by (apply Z.leb_le; reflexivity).
  split; [reflexivity|]. split; [lia|]. split; [exact H2|].
  rewrite (get_stacktrace_exact_fit (Some sample_stack) 2
             (empty_host (zeros 16)) (list_byte_of_string "frame1")
             "010"%byte "f"%byte "2"%byte eq_refl ltac:(lia) H2).
  reflexivity.
Defined.

Lemma store_nil (i : Z) (v : byte) : store [] i v = [].
Proof.
  unfold store. destruct ((0 <=? i) && (i <? byteLength [])) eqn:E;
    [|reflexivity].
  apply andb_true_iff in E. destruct E as [A B].
  apply Z.leb_le in A. apply Z.ltb_lt in B. unfold byteLength in B.
  simpl in B. lia.
Qed.

(** X11 -- with an empty trace (no stack, or a stack of five lines or
    fewer) [get_stacktrace] stores nothing whatever the capacity; it still
    throws [RangeError] when [buf] lies outside the memory. *)
Theorem get_stacktrace_empty_trace
  (stack : option string) (buf size : Z) (h : host) :
  stack_trace stack = [] ->
  get_stacktrace stack buf size h
  = (if (buf <? 0) || (byteLength (memory h) <? buf)
     then Throw RangeError else Ok tt, h).
Proof.
  intros Htrace. unfold get_stacktrace, mark_truncated. rewrite Htrace.
  assert (Hmark : (if size >=? byteLength []
                   then store (store (store [] (size - 1) dot)
                                     (size - 2) dot) (size - 3) dot
                   else []) = []).
  { destruct (size >=? byteLength []); [|reflexivity].
    rewrite !store_nil. reflexivity. }
  rewrite Hmark. unfold bind, get, lift, modify, set.
  replace (slice [] 0 size) with (@nil byte)
    by (unfold slice; simpl; rewrite firstn_nil; reflexivity).
  change (byteLength [] + buf) with (0 + buf). rewrite Z.add_0_l.
  destruct ((buf <? 0) || (byteLength (memory h) <? buf)); [reflexivity|].
  unfold splice. simpl. rewrite Nat.add_0_r, firstn_skipn.
  destruct h; reflexivity.
Qed.

Lemma get_stacktrace_empty_trace_witness :
  stack_trace None = []
  /\ get_stacktrace None 12 9 (empty_host (zeros 16))
     = (Ok tt, empty_host (zeros 16)).
Proof.
  split; [reflexivity|].
  rewrite (get_stacktrace_empty_trace None 12 9 (empty_host (zeros 16))
             eq_refl).
  reflexivity.
Defined.

End StackTrace.

(** ** The clock: when it returns, when it throws *)

Module ClockEdges.
Import Double DoubleFacts Worker ClockFacts Observe.

Lemma within_small (j k m e : Z) :
  0 <= k -> Z.abs m <= 2 ^ k -> e + k <= j -> within j (Fin m e).
Proof.
  intros Hk Hm Hj E HE HEj. unfold grid. rewrite Z.abs_mul.
  pose proof (pow2_pos (e - E) ltac:(lia)) as Hp.
  rewrite (Z.abs_eq (2 ^ (e - E))) by lia.
  assert (Hle : 2 ^ k * 2 ^ (e - E) <= 2 ^ (j - E)).
  { rewrite <- pow2_add by lia. apply Z.pow_le_mono_r; lia. }
  pose proof (Z.abs_nonneg m). nia.
Qed.

Lemma get_now_nsec_returns_witness :
  within 1000 (Fin 2469 (-1))
  /\ within 1000 (Fin 1700000000000 0)
  /\ exists r,
       get_now_nsec (Fin 2469 (-1)) (Fin 1700000000000 0) (empty_host [])
       = (Ok r, empty_host []).
Proof.
  assert (H1 : within 1000 (Fin 2469 (-1)))
    by (apply (within_small 1000 12); [lia|apply Z.leb_le; reflexivity|lia]).
  assert (H2 : within 1000 (Fin 1700000000000 0))
    by (apply (within_small 1000 41); [lia|apply Z.leb_le; reflexivity|lia]).
  split; [exact H1|]. split; [exact H2|].
  apply (get_now_nsec_returns (Fin 2469 (-1))
           (Fin 1700000000000 0) (empty_host []) H1 H2).
Defined.

Lemma add_not_finite (x y : double) :
  is_finite x && is_finite y = false -> is_finite (add x y) = false.
Proof.
  destruct x as [m1 e1|a|]; destruct y as [m2 e2|b|]; simpl;
    try discriminate; try reflexivity.
  destruct (Bool.eqb a b); reflexivity.
Qed.

(** X13 -- when either clock reading is not a finite number (an infinity or
    NaN), [get_now_nsec] throws [RangeError] and leaves the host as it
    was. *)
Theorem get_now_nsec_not_finite
  (now timeOrigin : double) (h : host) :
  is_finite now && is_finite timeOrigin = false ->
  get_now_nsec now timeOrigin h = (Throw RangeError, h).
Proof.
  intros H. apply add_not_finite in H.
  unfold get_now_nsec, bind, lift, ret. rewrite of_Z_200.
  destruct (add now timeOrigin) as [m e|a|]; [discriminate| |];
    reflexivity.
Qed.

Lemma get_now_nsec_not_finite_witness :
  is_finite NaN && is_finite (Fin 1700000000000 0) = false
  /\ get_now_nsec NaN (Fin 1700000000000 0) (empty_host [])
     = (Throw RangeError, empty_host []).
Proof.
  split; [reflexivity|].
  apply (get_now_nsec_not_finite NaN (Fin 1700000000000 0) (empty_host [])).
  reflexivity.
Defined.

Lemma round_mant_nonneg (m e : Z) : 0 <= m -> 0 <= fst (round_mant m e).
Proof.
  intros Hm. unfold round_mant. destruct (cexp m e <=? e) eqn:C; simpl.
  - exact Hm.
  - apply Z.leb_gt in C.
    pose proof (rne_div_mono 0 m (cexp m e - e) Hm) as H.
    replace 0 with (0 * 2 ^ (cexp m e - e)) in H at 1 by ring.
    rewrite rne_div_exact in H by lia. exact H.
Qed.

Lemma of_exact_nonneg (m e a b : Z) :
  0 <= m -> of_exact m e = Fin a b -> 0 <= a.
Proof.
  intros Hm H. apply of_exact_Fin in H.
  pose proof (round_mant_nonneg m e Hm) as Ha. rewrite H in Ha. exact Ha.
Qed.

(** X14 -- for clock readings that are not negative, a value
    [get_now_nsec] returns is not negative. *)
Theorem get_now_nsec_nonneg
  (now timeOrigin : double) (h h' : host) (r : Z) :
  nonneg now -> nonneg timeOrigin ->
  get_now_nsec now timeOrigin h = (Ok r, h') ->
  0 <= r.
Proof.
  intros Hn Ho H. apply get_now_nsec_Ok in H.
  destruct H as (n & Hn' & -> & _).
  destruct now as [m1 e1| |]; try contradiction.
  destruct timeOrigin as [m2 e2| |]; try contradiction.
  cbn [nonneg] in Hn, Ho.
  destruct (BigInt_Ok_Fin _ _ Hn') as (a & b & Hp).
  destruct (product_Fin _ _ _ _ _ Hp) as (s & t & Hs).
  rewrite Hp in Hn'. rewrite Hs in Hp. cbn [add] in Hs. cbn [mul] in Hp.
  assert (Hs0 : 0 <= s).
  { refine (of_exact_nonneg _ _ _ _ _ Hs).
    pose proof (pow2_pos (e1 - Z.min e1 e2) ltac:(lia)).
    pose proof (pow2_pos (e2 - Z.min e1 e2) ltac:(lia)). nia. }
  assert (Ha0 : 0 <= a) by (refine (of_exact_nonneg _ _ _ _ _ Hp); lia).
  assert (HE : exists E, E <= b /\ E <= 0) by (exists (Z.min b 0); lia).
  destruct HE as (E & HEb & HE0).
  rewrite (nearest_integer_grid E) in Hn' by assumption.
  apply Ok_inj in Hn'. subst n.
  pose proof (pow2_pos (b - E) ltac:(lia)).
  pose proof (pow2_pos (- E) ltac:(lia)).
  pose proof (pow2_pos (1 - E) ltac:(lia)).
  assert (0 <= (2 * grid E a b + 2 ^ (- E)) / 2 ^ (1 - E)).
  { apply Z.div_pos; [|lia]. unfold grid. nia. }
  lia.
Qed.

Lemma get_now_nsec_nonneg_witness :
  nonneg (Fin 2469 (-1)) /\ nonneg (Fin 1700000000000 0)
  /\ get_now_nsec (Fin 2469 (-1)) (Fin 1700000000000 0) (empty_host [])
     = (Ok 1700000001234500000, empty_host [])
  /\ 0 <= 1700000001234500000.
Proof.
  assert (H1 : nonneg (Fin 2469 (-1))) by (simpl; lia).
  assert (H2 : nonneg (Fin 1700000000000 0)) by (simpl; lia).
  split; [exact H1|]. split; [exact H2|].
  split; [vm_compute; reflexivity|].
  apply (get_now_nsec_nonneg (Fin 2469 (-1)) (Fin 1700000000000 0)
           (empty_host []) (empty_host []) 1700000001234500000 H1 H2).
  vm_compute. reflexivity.
Defined.

End ClockEdges.

(** ** The orchestrator over a whole run *)

Module RelayFacts.
Import Main Observe Samples SpawnRelay.

Lemma spawned_workers (o : orchestrator) (name : string)
  (msg : start_message) :
  workers (spawned o name msg) = workers o ++ [mkWorker name true [msg]].
Proof. reflexivity. Qed.

Lemma relay_count (msgs : list (nat * spawn_request)) (o : orchestrator) :
  listening_everywhere o ->
  List.length (workers (relay msgs o))
  = (List.length (workers o) + accepted (List.length (workers o)) msgs)%nat.
Proof.
  revert o. induction msgs as [|[src ev] msgs IH]; intros o Ho.
  - simpl. lia.
  - change (relay ((src, ev) :: msgs) o)
      with (relay msgs (snd (deliver src ev o))).
    rewrite IH by (apply deliver_listening_everywhere; exact Ho).
    cbn [accepted].
    destruct (Nat.ltb_spec src (List.length (workers o))) as [Hlt|Hge].
    + destruct (nth_error (workers o) src) as [x|] eqn:Hx;
        [|apply nth_error_None in Hx; lia].
      destruct Ho as [Hw _]. destruct (Hw src x Hx) as [Hl _].
      rewrite (deliver_listening _ _ _ _ Hx Hl), handler_spawns.
      destruct ev; simpl snd; rewrite spawned_workers, length_app; simpl;
        replace (List.length (workers o) + 1)%nat
          with (S (List.length (workers o))) by lia; lia.
    + unfold deliver, bind, get.
      replace (nth_error (workers o) src) with (@None worker)
        by (symmetry; apply nth_error_None; exact Hge).
      reflexivity.
Qed.

(** X15 -- from the start of main.ts on, the orchestrator has one worker
    for the boot context and one more per spawn request that arrived from a
    worker existing at that moment; a message from anything else creates
    nothing; and when the boot context was never started, nothing ever is. *)
Theorem one_worker_per_request
  (max_total_size : Z) (seed : list byte) (v : module_ref) (m : memory_ref)
  (msgs : list (nat * spawn_request)) :
  let o := snd (main max_total_size seed (start v m)) in
  List.length (workers (relay msgs o))
  = (List.length (workers o) + accepted (List.length (workers o)) msgs)%nat.
Proof.
  intros o. apply relay_count. apply main_listening_everywhere.
Qed.

Lemma spawned_shares (v : module_ref) (m : memory_ref) (o : orchestrator)
  (name : string) (msg : start_message) :
  shares v m o -> handles msg = (v, m) -> shares v m (spawned o name msg).
Proof.
  intros (Hv & Hm & Hall) Hmsg. repeat split; [exact Hv|exact Hm|].
  rewrite spawned_workers. apply Forall_app. split; [exact Hall|].
  repeat constructor. exact Hmsg.
Qed.

Lemma deliver_shares (v : module_ref) (m : memory_ref) (src : nat)
  (ev : spawn_request) (o : orchestrator) :
  shares v m o -> shares v m (snd (deliver src ev o)).
Proof.
  intros Ho. unfold deliver, bind, get.
  destruct (nth_error (workers o) src) as [x|]; [|exact Ho].
  destruct (onmessage_set x); [|exact Ho].
  rewrite handler_spawns. pose proof Ho as (Hv & Hm & _).
  destruct ev; apply spawned_shares; try exact Ho; simpl; congruence.
Qed.

(** X16 -- every context the orchestrator ever starts (boot, task or
    secondary, however deep in the chain of spawns) is posted the same
    module and the same memory: the two handles the orchestrator started
    with, which never change. *)
Theorem every_context_shares_module_and_memory
  (max_total_size : Z) (seed : list byte) (v : module_ref) (m : memory_ref)
  (msgs : list (nat * spawn_request)) :
  let o := relay msgs (snd (main max_total_size seed (start v m))) in
  vmlinux o = v /\ memory o = m
  /\ Forall (fun x => Forall (fun msg => handles msg = (v, m)) (inbox x))
            (workers o).
Proof.
  intros o. change (shares v m o). unfold o. clear o.
  assert (H0 : shares v m (snd (main max_total_size seed (start v m)))).
  { unfold main. unfold bind at 1. unfold get. unfold bind at 1.
    destruct (DeviceTree.generateDeviceTree max_total_size (boot_tree seed))
      as [blob|e].
    - rewrite spawn_sequence. apply spawned_shares; [|reflexivity].
      repeat split. constructor.
    - repeat split. constructor. }
  revert H0. generalize (snd (main max_total_size seed (start v m))).
  induction msgs as [|[src ev] msgs IH]; intros o Ho; [exact Ho|].
  apply IH. apply deliver_shares. exact Ho.
Qed.

(** X17 -- when the device tree cannot be encoded, main.ts stops there: the
    exception is its result and no worker has been created. *)
Theorem no_worker_without_device_tree
  (max_total_size : Z) (seed : list byte) (o : orchestrator) (e : exn) :
  DeviceTree.generateDeviceTree max_total_size (boot_tree seed) = Throw e ->
  main max_total_size seed o = (Throw e, o).
Proof.
  intros H. unfold main. unfold bind at 1. unfold get. unfold bind at 1.
  rewrite H. reflexivity.
Qed.

Lemma no_worker_without_device_tree_witness :
  DeviceTree.generateDeviceTree 100 (boot_tree (zeros 64))
  = Throw EncodingError
  /\ main 100 (zeros 64) (start 1%nat 2%nat)
     = (Throw EncodingError, start 1%nat 2%nat).
Proof.
  split; [vm_compute; reflexivity|].
  apply (no_worker_without_device_tree 100 (zeros 64) (start 1%nat 2%nat)
           EncodingError).
  vm_compute. reflexivity.
Defined.

End RelayFacts.
